(** * A contact manager: records, address book and command layer

    Shallow embedding of [address_book.py].  The Python program keeps an
    [AddressBook] (a dictionary from names to [Record] objects), validates
    phone numbers with a regular expression and birthdays with
    [datetime.strptime], and exposes a handful of commands whose exceptions
    are turned into strings by the [input_error] decorator.

    Conventions of the embedding:
    - a Python [str] is the list of its code points ([str := list N]);
    - an exception is a value of [exn]; a computation that may raise and that
      mutates an object is a function from the object's state to a result
      together with the state reached, so that what was mutated before a
      [raise] stays mutated, as in Python;
    - [datetime.now().date()] is an input [today] of the functions that read
      the clock, and is the same for all reads made by one call;
    - library behaviour is that of CPython 3.11 (Unicode 14.0). *)

From Stdlib Require Import List NArith ZArith Lia Bool String Ascii Decimal.
Import ListNotations.

Set Implicit Arguments.

(** ** Strings *)

Definition str : Type := list N.

(** Literals of the source are written [lit "..."]. *)
Definition lit (s : string) : str :=
  List.map N_of_ascii (list_ascii_of_string s).

Fixpoint str_eqb (a b : str) : bool :=
  match a, b with
  | [], [] => true
  | x :: a', y :: b' => N.eqb x y && str_eqb a' b'
  | _, _ => false
  end.

(** [sep.join(parts)] *)
Fixpoint join (sep : str) (parts : list str) : str :=
  match parts with
  | [] => []
  | [p] => p
  | p :: rest => p ++ sep ++ join sep rest
  end.

(** Decimal rendering of a natural number, as [str(n)] and [%d] do. *)
Fixpoint uint_str (u : Decimal.uint) : str :=
  match u with
  | Decimal.Nil => []
  | Decimal.D0 u => 48%N :: uint_str u
  | Decimal.D1 u => 49%N :: uint_str u
  | Decimal.D2 u => 50%N :: uint_str u
  | Decimal.D3 u => 51%N :: uint_str u
  | Decimal.D4 u => 52%N :: uint_str u
  | Decimal.D5 u => 53%N :: uint_str u
  | Decimal.D6 u => 54%N :: uint_str u
  | Decimal.D7 u => 55%N :: uint_str u
  | Decimal.D8 u => 56%N :: uint_str u
  | Decimal.D9 u => 57%N :: uint_str u
  end.

Definition dec (n : N) : str := uint_str (N.to_uint n).

(** ** Unicode decimal digits

    In a [str] pattern the class [\d] of [re] is the Unicode category Nd.
    Every run of Nd code points starts at one of [Nd_starts] and holds the
    digits 0 to 9 in order; the mathematical digits at U+1D7CE are five such
    runs in a row. *)

Definition Nd_starts : list N :=
  [ 0x30; 0x660; 0x6f0; 0x7c0; 0x966; 0x9e6; 0xa66; 0xae6; 0xb66; 0xbe6;
    0xc66; 0xce6; 0xd66; 0xde6; 0xe50; 0xed0; 0xf20; 0x1040; 0x1090; 0x17e0;
    0x1810; 0x1946; 0x19d0; 0x1a80; 0x1a90; 0x1b50; 0x1bb0; 0x1c40; 0x1c50;
    0xa620; 0xa8d0; 0xa900; 0xa9d0; 0xa9f0; 0xaa50; 0xabf0; 0xff10; 0x104a0;
    0x10d30; 0x11066; 0x110f0; 0x11136; 0x111d0; 0x112f0; 0x11450; 0x114d0;
    0x11650; 0x116c0; 0x11730; 0x118e0; 0x11950; 0x11c50; 0x11d50; 0x11da0;
    0x16a60; 0x16ac0; 0x16b50;
    0x1d7ce; 0x1d7d8; 0x1d7e2; 0x1d7ec; 0x1d7f6;
    0x1e140; 0x1e2f0; 0x1e950; 0x1fbf0 ]%N.

Fixpoint digit_in (starts : list N) (c : N) : option N :=
  match starts with
  | [] => None
  | s :: rest =>
      if ((s <=? c) && (c <? s + 10))%N then Some (c - s)%N
      else digit_in rest c
  end.

(** The decimal value of a code point of category Nd. *)
Definition digit_value (c : N) : option N := digit_in Nd_starts c.

(** [\d] *)
Definition is_digit (c : N) : bool :=
  match digit_value c with Some _ => true | None => false end.

(** [[a-b]] for ASCII [a] and [b] *)
Definition in_range (a b : string) (c : N) : bool :=
  match lit a, lit b with
  | [lo], [hi] => ((lo <=? c) && (c <=? hi))%N
  | _, _ => false
  end.

(** a literal character of a pattern *)
Definition is_char (a : string) (c : N) : bool :=
  match lit a with
  | [x] => N.eqb x c
  | _ => false
  end.

Arguments is_digit !c /.
Arguments in_range a b !c /.
Arguments is_char a !c /.

(** ** Exceptions and results *)

Inductive exn : Type :=
| ValueError (msg : str)
| KeyError (arg : str)
| IndexError (msg : str).

Inductive result (A : Type) : Type :=
| Ok (a : A)
| Raise (e : exn).

Arguments Ok {A} a.
Arguments Raise {A} e.

(** A method of an object whose state has type [S]: it returns or raises,
    and leaves the object in some state either way. *)
Definition M (S A : Type) : Type := S -> result A * S.

Definition ret {S A} (a : A) : M S A := fun s => (Ok a, s).

Definition bind {S A B} (m : M S A) (k : A -> M S B) : M S B :=
  fun s =>
    match m s with
    | (Ok a, s') => k a s'
    | (Raise e, s') => (Raise e, s')
    end.

Definition raise {S A} (e : exn) : M S A := fun s => (Raise e, s).

Definition get {S} : M S S := fun s => (Ok s, s).

Definition put {S} (s : S) : M S unit := fun _ => (Ok tt, s).

(** A constructor call: it may raise, and touches no state. *)
Definition lift {S A} (r : result A) : M S A := fun s => (r, s).

Declare Scope py_scope.
Delimit Scope py_scope with py.

Notation "x <- c ;; k" := (bind c (fun x => k))
  (at level 100, c at next level, right associativity) : py_scope.
Notation "c ;;; k" := (bind c (fun _ => k))
  (at level 100, right associativity) : py_scope.

Local Open Scope py_scope.

(** ** Fields *)

Module Name.

Record t : Type := make { value : str }.

(** [Name.__init__]: an empty value is refused. *)
Definition init (v : str) : result t :=
  match v with
  | [] => Raise (ValueError (lit "Name is required."))
  | _ => Ok (make v)
  end.

End Name.

Module Phone.

Record t : Type := make { value : str }.

(** [\d{10}]: ten digits, and what follows them. *)
Fixpoint digits (n : nat) (s : str) : option str :=
  match n with
  | O => Some s
  | S n' =>
      match s with
      | c :: s' => if is_digit c then digits n' s' else None
      | [] => None
      end
  end.

(** [$] without [re.MULTILINE]: at the end of the string, or just before
    a newline that is the last character. *)
Definition at_dollar (rest : str) : bool :=
  match rest with
  | [] => true
  | [c] => N.eqb c 10
  | _ => false
  end.

(** [bool(re.match(r'^\d{10}$', value))] *)
Definition validate (v : str) : bool :=
  match digits 10 v with
  | Some rest => at_dollar rest
  | None => false
  end.

Definition init (v : str) : result t :=
  if validate v then Ok (make v)
  else Raise (ValueError (lit "Invalid phone number format. It must be 10 digits.")).

End Phone.

(** ** Calendar dates ([datetime.date]) *)

Module Date.

Record t : Type := make { year : Z; month : Z; day : Z }.

Definition MINYEAR : Z := 1.
Definition MAXYEAR : Z := 9999.

Definition is_leap (y : Z) : bool :=
  (y mod 4 =? 0)%Z && (negb (y mod 100 =? 0)%Z || (y mod 400 =? 0)%Z).

Definition days_in_month (y m : Z) : Z :=
  match m with
  | 1 => 31 | 2 => if is_leap y then 29 else 28 | 3 => 31 | 4 => 30
  | 5 => 31 | 6 => 30 | 7 => 31 | 8 => 31 | 9 => 30 | 10 => 31
  | 11 => 30 | 12 => 31
  | _ => -1
  end%Z.

Definition days_before_month (y m : Z) : Z :=
  (match m with
   | 1 => 0 | 2 => 31 | 3 => 59 | 4 => 90 | 5 => 120 | 6 => 151
   | 7 => 181 | 8 => 212 | 9 => 243 | 10 => 273 | 11 => 304 | 12 => 334
   | _ => -1
   end + (if (2 <? m) && is_leap y then 1 else 0))%Z.

Definition days_before_year (y : Z) : Z :=
  (let p := y - 1 in p * 365 + p / 4 - p / 100 + p / 400)%Z.

(** [date.toordinal()]: 1 is the first of January of year 1. *)
Definition toordinal (d : t) : Z :=
  (days_before_year (year d) + days_before_month (year d) (month d) + day d)%Z.

Definition dec_Z (z : Z) : str :=
  if (z <? 0)%Z then lit "-" ++ dec (Z.to_N (- z)) else dec (Z.to_N z).

(** [date(y, m, d)]: the fields are checked in this order. *)
Definition new (y m d : Z) : result t :=
  if negb ((MINYEAR <=? y) && (y <=? MAXYEAR))%Z then
    Raise (ValueError (lit "year " ++ dec_Z y ++ lit " is out of range"))
  else if negb ((1 <=? m) && (m <=? 12))%Z then
    Raise (ValueError (lit "month must be in 1..12"))
  else if negb ((1 <=? d) && (d <=? days_in_month y m))%Z then
    Raise (ValueError (lit "day is out of range for month"))
  else Ok (make y m d).

(** [d.replace(year=y)] builds a new date from the changed fields. *)
Definition replace_year (d : t) (y : Z) : result t :=
  new y (month d) (day d).

(** [a < b] compares the triples (year, month, day). *)
Definition lt (a b : t) : bool :=
  ((year a <? year b)
   || ((year a =? year b)
       && ((month a <? month b)
           || ((month a =? month b) && (day a <? day b)))))%Z.

(** [(a - b).days] *)
Definition sub_days (a b : t) : Z := (toordinal a - toordinal b)%Z.

Definition pad2 (z : Z) : str :=
  if (z <? 10)%Z then lit "0" ++ dec_Z z else dec_Z z.

(** [d.strftime('%d.%m.%Y')]; the year is printed as glibc does, without
    padding. *)
Definition strftime_dmY (d : t) : str :=
  pad2 (day d) ++ lit "." ++ pad2 (month d) ++ lit "." ++ dec_Z (year d).

(** The date is one that [date(y, m, d)] can build. *)
Definition valid (d : t) : Prop :=
  (MINYEAR <= year d <= MAXYEAR /\ 1 <= month d <= 12
   /\ 1 <= day d <= days_in_month (year d) (month d))%Z.

End Date.

(** ** A backtracking matcher for the patterns of [_strptime]

    A pattern is a sequence of groups; a group is an ordered choice between
    alternatives; an alternative is a sequence of character classes.  As
    [re.match] does, the matcher takes the first alternative of a group for
    which the rest of the pattern matches too. *)

Module Re.

Definition cls : Type := N -> bool.

Fixpoint match_seq (a : list cls) (s : str) : option (str * str) :=
  match a with
  | [] => Some ([], s)
  | p :: a' =>
      match s with
      | c :: s' =>
          if p c then
            match match_seq a' s' with
            | Some (m, rest) => Some (c :: m, rest)
            | None => None
            end
          else None
      | [] => None
      end
  end.

Section Alternatives.
Variable A : Type.
Variable k : str -> option A.

Fixpoint first_alt (alts : list (list cls)) (s : str) : option (str * A) :=
  match alts with
  | [] => None
  | a :: rest =>
      match match_seq a s with
      | Some (m, r) =>
          match k r with
          | Some x => Some (m, x)
          | None => first_alt rest s
          end
      | None => first_alt rest s
      end
  end.
End Alternatives.

(** The captured text of each group, and what is left of the input. *)
Fixpoint match_groups (p : list (list (list cls))) (s : str)
  : option (list str * str) :=
  match p with
  | [] => Some ([], s)
  | g :: p' =>
      match first_alt (match_groups p') g s with
      | Some (m, (caps, rest)) => Some (m :: caps, rest)
      | None => None
      end
  end.

End Re.

Module Birthday.

Record t : Type := make { value : Date.t }.

(** [(?P<d>3[0-1]|[1-2]\d|0[1-9]|[1-9]| [1-9])] *)
Definition re_d : list (list Re.cls) :=
  [ [is_char "3"; in_range "0" "1"];
    [in_range "1" "2"; is_digit];
    [is_char "0"; in_range "1" "9"];
    [in_range "1" "9"];
    [is_char " "; in_range "1" "9"] ].

(** [(?P<m>1[0-2]|0[1-9]|[1-9])] *)
Definition re_m : list (list Re.cls) :=
  [ [is_char "1"; in_range "0" "2"];
    [is_char "0"; in_range "1" "9"];
    [in_range "1" "9"] ].

(** [(?P<Y>\d\d\d\d)] *)
Definition re_Y : list (list Re.cls) :=
  [ [is_digit; is_digit; is_digit; is_digit] ].

Definition re_dot : list (list Re.cls) := [ [is_char "."] ].

(** The pattern [_strptime] compiles for the format ["%d.%m.%Y"]
    (case is ignored, which changes nothing for these classes). *)
Definition format_regex : list (list (list Re.cls)) :=
  [re_d; re_dot; re_m; re_dot; re_Y].

(** [int(s)] on the text of a group: the blanks before the number are
    dropped (no group ends in one), the digits are read in base ten. *)
Fixpoint int_digits (acc : Z) (s : str) : option Z :=
  match s with
  | [] => Some acc
  | c :: s' =>
      match digit_value c with
      | Some v => int_digits (10 * acc + Z.of_N v) s'
      | None => None
      end
  end.

Fixpoint lstrip (s : str) : str :=
  match s with
  | c :: s' => if N.eqb c 32 then lstrip s' else s
  | [] => []
  end.

Definition int (s : str) : option Z :=
  match lstrip s with
  | [] => None
  | s' => int_digits 0 s'
  end.

(** [datetime.strptime(value, "%d.%m.%Y").date()]; [None] stands for the
    [ValueError] it raises, whose message the caller throws away. *)
Definition strptime_dmY (v : str) : option Date.t :=
  match Re.match_groups format_regex v with
  | Some ([d; _; m; _; y], []) =>
      match int y, int m, int d with
      | Some y', Some m', Some d' =>
          match Date.new y' m' d' with
          | Ok dt => Some dt
          | Raise _ => None
          end
      | _, _, _ => None
      end
  | _ => None
  end.

Definition init (v : str) : result t :=
  match strptime_dmY v with
  | Some d => Ok (make d)
  | None => Raise (ValueError (lit "Invalid date format. Use DD.MM.YYYY"))
  end.

End Birthday.

(** ** Records ([class Record]) *)

Module Rec.

Record t : Type := make {
  name : Name.t;
  phones : list Phone.t;
  birthday : option Birthday.t
}.

Definition init (n : str) : result t :=
  match Name.init n with
  | Ok nm => Ok (make nm [] None)
  | Raise e => Raise e
  end.

Definition set_phones (ps : list Phone.t) (r : t) : t :=
  make (name r) ps (birthday r).

Definition set_birthday (b : option Birthday.t) (r : t) : t :=
  make (name r) (phones r) b.

(** [find_phone]: the first phone of the list whose value is the number. *)
Definition find_phone (number : str) (r : t) : option Phone.t :=
  List.find (fun p => str_eqb (Phone.value p) number) (phones r).

(** [add_phone]: the number is validated by the constructor of [Phone],
    then appended. *)
Definition add_phone (number : str) : M t unit :=
  phone <- lift (Phone.init number) ;;
  r <- get ;;
  put (set_phones (phones r ++ [phone]) r).

(** [list.remove(x)]: drops the first element equal to [x].  [Phone]
    defines no equality, so Python compares the objects by identity; the
    object handed over is the first one with its value, because it comes
    from [find_phone], so the element dropped is the first with that
    value. *)
Fixpoint list_remove (x : Phone.t) (l : list Phone.t)
  : result (list Phone.t) :=
  match l with
  | [] => Raise (ValueError (lit "list.remove(x): x not in list"))
  | p :: l' =>
      if str_eqb (Phone.value p) (Phone.value x) then Ok l'
      else match list_remove x l' with
           | Ok l'' => Ok (p :: l'')
           | Raise e => Raise e
           end
  end.

Definition remove_phone (number : str) : M t unit :=
  r <- get ;;
  match find_phone number r with
  | Some phone_to_remove =>
      ps <- lift (list_remove phone_to_remove (phones r)) ;;
      put (set_phones ps r)
  | None => raise (ValueError (lit "Phone number not found."))
  end.

Definition edit_phone (old_number new_number : str) : M t unit :=
  r <- get ;;
  match find_phone old_number r with
  | Some _ =>
      remove_phone old_number ;;;
      add_phone new_number
  | None => raise (ValueError (lit "Phone number not found."))
  end.

Definition add_birthday (b : str) : M t unit :=
  bd <- lift (Birthday.init b) ;;
  r <- get ;;
  put (set_birthday (Some bd) r).

(** [days_to_birthday]; it reads the record and the clock, and raises
    when [replace] cannot build the date. *)
Definition days_to_birthday (today : Date.t) (r : t) : result (option Z) :=
  match birthday r with
  | Some b =>
      match Date.replace_year (Birthday.value b) (Date.year today) with
      | Ok next_birthday =>
          if Date.lt next_birthday today then
            match Date.replace_year (Birthday.value b) (Date.year today + 1) with
            | Ok next_birthday' => Ok (Some (Date.sub_days next_birthday' today))
            | Raise e => Raise e
            end
          else Ok (Some (Date.sub_days next_birthday today))
      | Raise e => Raise e
      end
  | None => Ok None
  end.

(** [__str__] *)
Definition to_str (r : t) : str :=
  let birthday_str :=
    match birthday r with
    | Some b => lit ", birthday: " ++ Date.strftime_dmY (Birthday.value b)
    | None => []
    end in
  lit "Contact name: " ++ Name.value (name r) ++ lit ", phones: "
    ++ join (lit "; ") (List.map Phone.value (phones r)) ++ birthday_str.

End Rec.

(** ** The address book ([class AddressBook(UserDict)])

    [data] is a Python dictionary: its keys are distinct and it is walked
    in the order in which the keys were first inserted.  It is kept as the
    list of its items in that order.  A record is reached only through the
    slot it sits in, so mutating the object found under a key is updating
    that slot. *)

Module AddressBook.

Definition t : Type := list (str * Rec.t).

(** The keys are distinct. *)
Definition wf (book : t) : Prop := NoDup (List.map fst book).

(** [self.data.get(name, None)] *)
Fixpoint find (n : str) (book : t) : option Rec.t :=
  match book with
  | [] => None
  | (k, r) :: rest => if str_eqb k n then Some r else find n rest
  end.

(** [self.data[k] = r]: in place when the key is there, at the end when
    it is not. *)
Fixpoint setitem (k : str) (r : Rec.t) (book : t) : t :=
  match book with
  | [] => [(k, r)]
  | (k', r') :: rest =>
      if str_eqb k' k then (k', r) :: rest
      else (k', r') :: setitem k r rest
  end.

Definition add_record (r : Rec.t) : M t unit :=
  book <- get ;;
  put (setitem (Name.value (Rec.name r)) r book).

(** [del self.data[k]] for a key that is there *)
Fixpoint delitem (k : str) (book : t) : t :=
  match book with
  | [] => []
  | (k', r') :: rest =>
      if str_eqb k' k then rest else (k', r') :: delitem k rest
  end.

Definition delete (n : str) : M t unit :=
  book <- get ;;
  match find n book with
  | Some _ => put (delitem n book)
  | None => raise (KeyError (lit "Contact not found."))
  end.

(** An item of the list [get_upcoming_birthdays] returns: the dictionary
    with the keys ["name"] and ["birthday"]. *)
Record upcoming : Type := make_upcoming {
  up_name : str;
  up_birthday : Date.t
}.

Fixpoint scan (today : Date.t) (records : list Rec.t)
  : result (list upcoming) :=
  match records with
  | [] => Ok []
  | r :: rest =>
      match Rec.days_to_birthday today r with
      | Raise e => Raise e
      | Ok days =>
          let here :=
            match days, Rec.birthday r with
            | Some d, Some b =>
                if ((0 <=? d) && (d <=? 7))%Z
                then [make_upcoming (Name.value (Rec.name r)) (Birthday.value b)]
                else []
            | _, _ => []
            end in
          match scan today rest with
          | Ok l => Ok (here ++ l)
          | Raise e => Raise e
          end
      end
  end.

(** [get_upcoming_birthdays]: the records are visited in the order of
    [self.data.values()]. *)
Definition get_upcoming_birthdays (today : Date.t) (book : t)
  : result (list upcoming) :=
  scan today (List.map snd book).

(** [__str__] *)
Definition to_str (book : t) : str :=
  match book with
  | [] => lit "Address book is empty."
  | _ => join (lit (String "010" EmptyString)) (List.map (fun kr => Rec.to_str (snd kr)) book)
  end.

End AddressBook.

(** ** Commands, before decoration *)

Module Body.

Import AddressBook.

(** The [ValueError] of an unpacking [a, b, *_ = args] that finds fewer
    than [n] values. *)
Definition unpack_error (n : N) (args : list str) : exn :=
  ValueError (lit "not enough values to unpack (expected at least "
                ++ dec n ++ lit ", got "
                ++ dec (N.of_nat (List.length args)) ++ lit ")").

(** [if s:] on a string *)
Definition truthy (s : str) : bool :=
  match s with [] => false | _ => true end.

(** A method call [record.m(...)] on the record object held in the slot
    [k] of the book: the object is left as the method leaves it, whether
    it returns or raises. *)
Definition mutate {A} (k : str) (record : Rec.t) (m : M Rec.t A) : M t A :=
  fun book =>
    let (res, record') := m record in (res, setitem k record' book).

Definition add_contact (args : list str) : M t str :=
  match args with
  | name :: phone :: _ =>
      book <- get ;;
      rm <- match find name book with
            | None =>
                record <- lift (Rec.init name) ;;
                add_record record ;;;
                ret (record, lit "Contact added.")
            | Some record => ret (record, lit "Contact updated.")
            end ;;
      (if truthy phone then mutate name (fst rm) (Rec.add_phone phone)
       else ret tt) ;;;
      ret (snd rm)
  | _ => raise (unpack_error 2 args)
  end.

Definition change_phone (args : list str) : M t str :=
  match args with
  | name :: old_phone :: new_phone :: _ =>
      book <- get ;;
      match find name book with
      | None => raise (ValueError (lit "Contact not found."))
      | Some record =>
          mutate name record (Rec.edit_phone old_phone new_phone) ;;;
          ret (lit "Phone number updated.")
      end
  | _ => raise (unpack_error 3 args)
  end.

Definition show_phone (args : list str) : M t str :=
  match args with
  | name :: _ =>
      book <- get ;;
      match find name book with
      | None => raise (ValueError (lit "Contact not found."))
      | Some record =>
          ret (Name.value (Rec.name record) ++ lit ": "
                 ++ join (lit ", ") (List.map Phone.value (Rec.phones record)))
      end
  | _ => raise (unpack_error 1 args)
  end.

Definition show_all_contacts : M t str :=
  book <- get ;;
  ret (to_str book).

Definition add_birthday (args : list str) : M t str :=
  match args with
  | name :: birthday :: _ =>
      book <- get ;;
      match find name book with
      | None => raise (ValueError (lit "Contact not found."))
      | Some record =>
          mutate name record (Rec.add_birthday birthday) ;;;
          ret (lit "Birthday added.")
      end
  | _ => raise (unpack_error 2 args)
  end.

Definition show_birthday (args : list str) : M t str :=
  match args with
  | name :: _ =>
      book <- get ;;
      match find name book with
      | Some (Rec.make nm _ (Some b)) =>
          ret (Name.value nm ++ lit ": " ++ Date.strftime_dmY (Birthday.value b))
      | _ => raise (ValueError (lit "Birthday not found."))
      end
  | _ => raise (unpack_error 1 args)
  end.

Definition birthdays (today : Date.t) (args : list str) : M t str :=
  book <- get ;;
  upcoming_birthdays <- lift (get_upcoming_birthdays today book) ;;
  let result :=
    List.map (fun bday => up_name bday ++ lit ": "
                            ++ Date.strftime_dmY (up_birthday bday))
             upcoming_birthdays in
  ret (match result with
       | [] => lit "No upcoming birthdays."
       | _ => join (lit (String "010" EmptyString)) result
       end).

End Body.

(** ** The decorator and the commands *)

Section Decorated.

(** [repr] on strings, which [str] of a [KeyError] goes through.  It
    depends on the table of printable characters of the interpreter, and
    is left open. *)
Variable repr : str -> str.

(** [str(e)] *)
Definition exn_str (e : exn) : str :=
  match e with
  | ValueError msg => msg
  | IndexError msg => msg
  | KeyError arg => repr arg
  end.

(** [input_error]: the three classes of [exn] are the ones of the
    [except] clause. *)
Definition input_error (f : M AddressBook.t str)
  : AddressBook.t -> str * AddressBook.t :=
  fun book =>
    match f book with
    | (Ok s, book') => (s, book')
    | (Raise e, book') => (lit "Error: " ++ exn_str e, book')
    end.

Definition add_contact (args : list str) := input_error (Body.add_contact args).
Definition change_phone (args : list str) := input_error (Body.change_phone args).
Definition show_phone (args : list str) := input_error (Body.show_phone args).
Definition show_all_contacts := input_error Body.show_all_contacts.
Definition add_birthday (args : list str) := input_error (Body.add_birthday args).
Definition show_birthday (args : list str) := input_error (Body.show_birthday args).
Definition birthdays (today : Date.t) (args : list str) :=
  input_error (Body.birthdays today args).

End Decorated.

(** [repr] of a string of printable characters other than quotes and
    backslashes; the examples run the commands with it. *)
Definition repr_plain (s : str) : str := lit "'" ++ s ++ lit "'".

(** ** The command line ([parse_input] and [main])

    [input()] hands over one line without its end-of-line; [print] writes
    one message.  The loop is run on the list of the lines typed, each with
    the date of the day on which it is handled; what it prints is the list
    of the messages, the prompts left out.  The book loaded at the start and
    the book saved at the end are an argument and a result: the file is
    outside. *)

(** The characters [str.split()] cuts at: those for which [str.isspace()]
    holds. *)
Definition whitespace : list N :=
  [ 9; 10; 11; 12; 13; 28; 29; 30; 31; 32; 133; 160; 5760; 8192; 8193; 8194;
    8195; 8196; 8197; 8198; 8199; 8200; 8201; 8202; 8232; 8233; 8239; 8287;
    12288 ]%N.

Definition is_space (c : N) : bool := existsb (N.eqb c) whitespace.

(** [s.split()]: the maximal runs of characters that are not whitespace.
    [cur] is the run being read, last character first. *)
Fixpoint split_from (cur : str) (s : str) : list str :=
  match s with
  | [] => match cur with [] => [] | _ => [List.rev cur] end
  | c :: s' =>
      if is_space c then
        match cur with
        | [] => split_from [] s'
        | _ => List.rev cur :: split_from [] s'
        end
      else split_from (c :: cur) s'
  end.

Definition split (s : str) : list str := split_from [] s.

(** [parse_input]: [parts[0]] raises on a line without a word. *)
Definition parse_input (user_input : str) : result (str * list str) :=
  match split user_input with
  | [] => Raise (IndexError (lit "list index out of range"))
  | command :: args => Ok (command, args)
  end.

(** How a run of [main] ends: the book is saved after [close] or [exit];
    an exception nothing catches stops the program; so does the end of the
    input, on which [input()] raises.  The book is the one in memory at
    that point. *)
Inductive ending : Type :=
| Saved (book : AddressBook.t)
| Uncaught (e : exn) (book : AddressBook.t)
| EndOfInput (book : AddressBook.t).

Definition ending_book (e : ending) : AddressBook.t :=
  match e with
  | Saved book => book
  | Uncaught _ book => book
  | EndOfInput book => book
  end.

Section Loop.

Variable repr : str -> str.

(** The branches of the loop other than [close] and [exit]: the message
    displayed and the book afterwards. *)
Definition dispatch (today : Date.t) (command : str) (args : list str)
  : AddressBook.t -> str * AddressBook.t :=
  fun book =>
    if str_eqb command (lit "hello") then (lit "How can I help you?", book)
    else if str_eqb command (lit "add") then add_contact repr args book
    else if str_eqb command (lit "change") then change_phone repr args book
    else if str_eqb command (lit "phone") then show_phone repr args book
    else if str_eqb command (lit "all") then show_all_contacts repr book
    else if str_eqb command (lit "add-birthday") then add_birthday repr args book
    else if str_eqb command (lit "show-birthday") then show_birthday repr args book
    else if str_eqb command (lit "birthdays") then birthdays repr today args book
    else (lit "Invalid command.", book).

(** [command in ["close", "exit"]] *)
Definition is_exit (command : str) : bool :=
  str_eqb command (lit "close") || str_eqb command (lit "exit").

(** The [while True] loop. *)
Fixpoint main_loop (inputs : list (Date.t * str)) (book : AddressBook.t)
  : list str * ending :=
  match inputs with
  | [] => ([], EndOfInput book)
  | (today, user_input) :: rest =>
      match parse_input user_input with
      | Raise e => ([], Uncaught e book)
      | Ok (command, args) =>
          if is_exit command then
            ([lit "Data saved successfully."; lit "Good bye!"], Saved book)
          else
            let (message, book') := dispatch today command args book in
            let (printed, e) := main_loop rest book' in
            (message :: printed, e)
      end
  end.

(** [main], from the book that [load_data] returned. *)
Definition main (inputs : list (Date.t * str)) (book : AddressBook.t)
  : list str * ending :=
  let (printed, e) := main_loop inputs book in
  (lit "Welcome to the assistant bot!" :: printed, e).

End Loop.

(** ** Vocabulary of the statements *)

(** The length of a year. *)
Definition days_in_year (y : Z) : Z := if Date.is_leap y then 366%Z else 365%Z.

(** The day after a date. *)
Definition tomorrow (d : Date.t) : Date.t :=
  if (Date.day d <? Date.days_in_month (Date.year d) (Date.month d))%Z
  then Date.make (Date.year d) (Date.month d) (Date.day d + 1)
  else if (Date.month d <? 12)%Z
       then Date.make (Date.year d) (Date.month d + 1) 1
       else Date.make (Date.year d + 1) 1 1.

(** The birthday of a record as it falls in a given year. *)
Definition birthday_in (y : Z) (b : Birthday.t) : Date.t :=
  Date.make y (Date.month (Birthday.value b)) (Date.day (Birthday.value b)).

(** What one record adds to the list of upcoming birthdays. *)
Definition upcoming_of (today : Date.t) (r : Rec.t) : list AddressBook.upcoming :=
  match Rec.days_to_birthday today r, Rec.birthday r with
  | Ok (Some d), Some b =>
      if ((0 <=? d) && (d <=? 7))%Z
      then [AddressBook.make_upcoming (Name.value (Rec.name r)) (Birthday.value b)]
      else []
  | _, _ => []
  end.

(** A text is made of one character of each class of an alternative. *)
Fixpoint fits (alt : list Re.cls) (s : str) : bool :=
  match alt, s with
  | [], [] => true
  | p :: alt', c :: s' => p c && fits alt' s'
  | _, _ => false
  end.

(** The written forms of a day: [3] then [0] or [1]; [1] or [2] then a
    digit; [0] then [1] to [9]; [1] to [9] alone, or after a blank. *)
Definition day_text (d : str) : bool :=
  match d with
  | [a] => in_range "1" "9" a
  | [a; b] =>
      (is_char "3" a && in_range "0" "1" b)
      || (in_range "1" "2" a && is_digit b)
      || (is_char "0" a && in_range "1" "9" b)
      || (is_char " " a && in_range "1" "9" b)
  | _ => false
  end.

(** The written forms of a month: [1] then [0] to [2]; [0] then [1] to
    [9]; [1] to [9] alone. *)
Definition month_text (m : str) : bool :=
  match m with
  | [a] => in_range "1" "9" a
  | [a; b] =>
      (is_char "1" a && in_range "0" "2" b)
      || (is_char "0" a && in_range "1" "9" b)
  | _ => false
  end.

(** A year is written with four digits. *)
Definition year_text (y : str) : bool :=
  match y with
  | [a; b; c; d] => is_digit a && is_digit b && is_digit c && is_digit d
  | _ => false
  end.

(** The string is a day, a dot, a month, a dot and a year, and they are
    the numbers of the date, which exists. *)
Definition reads (v : str) (dt : Date.t) : Prop :=
  exists d m y,
    v = d ++ lit "." ++ m ++ lit "." ++ y
    /\ day_text d = true /\ month_text m = true /\ year_text y = true
    /\ Birthday.int d = Some (Date.day dt)
    /\ Birthday.int m = Some (Date.month dt)
    /\ Birthday.int y = Some (Date.year dt)
    /\ Date.valid dt.

(** The strict format: two digits, a dot, two digits, a dot, four digits,
    the digits being [0] to [9]. *)
Definition DD_MM_YYYY (v : str) : bool :=
  match v with
  | [d1; d2; p1; m1; m2; p2; y1; y2; y3; y4] =>
      forallb (in_range "0" "9") [d1; d2; m1; m2; y1; y2; y3; y4]
      && is_char "." p1 && is_char "." p2
  | _ => false
  end.

(** The value of one of the digits [0] to [9]. *)
Definition digit (c : N) : Z := (Z.of_N c - 48)%Z.

(** The date a string of the strict format names. *)
Definition strict_date (v : str) : Date.t :=
  match v with
  | [d1; d2; _; m1; m2; _; y1; y2; y3; y4] =>
      Date.make (1000 * digit y1 + 100 * digit y2 + 10 * digit y3 + digit y4)
                (10 * digit m1 + digit m2)
                (10 * digit d1 + digit d2)
  | _ => Date.make 0 0 0
  end.

(** A call raises nothing but [ValueError]. *)
Definition value_errors {A} (r : result A) : Prop :=
  forall e, r = Raise e -> exists msg, e = ValueError msg.

Definition only_value_errors {S A} (m : M S A) : Prop :=
  forall s, value_errors (fst (m s)).

(** One text for each group of a pattern. *)
Inductive texts : list (list (list Re.cls)) -> list str -> Prop :=
| texts_nil : texts [] []
| texts_cons g p alt c caps :
    In alt g -> fits alt c = true -> texts p caps ->
    texts (g :: p) (c :: caps).

(** A record as the commands build them: a name that is not empty, phones
    that passed validation, a birthday that is a date of the calendar. *)
Definition rec_ok (r : Rec.t) : Prop :=
  Name.value (Rec.name r) <> []
  /\ (forall p, In p (Rec.phones r) -> Phone.validate (Phone.value p) = true)
  /\ (forall b, Rec.birthday r = Some b -> Date.valid (Birthday.value b)).

(** A book as the commands build them: distinct keys, each the name of
    its record. *)
Definition book_ok (book : AddressBook.t) : Prop :=
  AddressBook.wf book
  /\ forall k r, In (k, r) book -> Name.value (Rec.name r) = k /\ rec_ok r.

(** Ten digits and nothing else. *)
Definition ten_digits (v : str) : Prop :=
  List.length v = 10 /\ forallb is_digit v = true.

(** Every phone of the book is ten digits. *)
Definition phones_ten_digits (book : AddressBook.t) : Prop :=
  forall k r p, In (k, r) book -> In p (Rec.phones r) -> ten_digits (Phone.value p).

(** A line with a first word that is neither [close] nor [exit]. *)
Definition ordinary (user_input : str) : Prop :=
  exists command args,
    parse_input user_input = Ok (command, args) /\ is_exit command = false.

(** What a method may do to a record: the name stays; a phone of the
    record afterwards was there before or is one of the arguments and
    passed validation; a birthday afterwards was there before or is a date
    of the calendar. *)
Definition rec_step (args : list str) (r r' : Rec.t) : Prop :=
  Rec.name r' = Rec.name r
  /\ (forall p, In p (Rec.phones r') ->
       In p (Rec.phones r)
       \/ (In (Phone.value p) args /\ Phone.validate (Phone.value p) = true))
  /\ (forall b, Rec.birthday r' = Some b ->
       Rec.birthday r = Some b \/ Date.valid (Birthday.value b)).

(** What a command may do to the book: nothing; or change, in its place,
    the record found under one key; or put at the end a record for a new
    key, which is one of the arguments and is not empty. *)
Definition effect (args : list str) (book book' : AddressBook.t) : Prop :=
  book' = book
  \/ (exists k r r',
        AddressBook.find k book = Some r /\ rec_step args r r'
        /\ book' = AddressBook.setitem k r' book)
  \/ (exists k r',
        AddressBook.find k book = None /\ k <> [] /\ In k args
        /\ rec_step args (Rec.make (Name.make k) [] None) r'
        /\ book' = book ++ [(k, r')]).

(** The first list starts the second. *)
Definition prefix (l l' : list str) : Prop := exists more, l' = l ++ more.

(** A word: not empty, without whitespace. *)
Definition word (t : str) : Prop :=
  t <> [] /\ forall c, In c t -> is_space c = false.

(** The text is the number [z] in two digits, in four digits. *)
Definition two_digits_of (z : Z) (t : str) : bool :=
  match t with
  | [a; b] =>
      in_range "0" "9" a && in_range "0" "9" b
      && (10 * digit a + digit b =? z)%Z
  | _ => false
  end.

Definition four_digits_of (z : Z) (t : str) : bool :=
  match t with
  | [a; b; c; d] =>
      in_range "0" "9" a && in_range "0" "9" b
      && in_range "0" "9" c && in_range "0" "9" d
      && (1000 * digit a + 100 * digit b + 10 * digit c + digit d =? z)%Z
  | _ => false
  end.

(** The whole numbers from [lo], [n] of them. *)
Fixpoint Z_range (lo : Z) (n : nat) : list Z :=
  match n with
  | O => []
  | S n' => lo :: Z_range (lo + 1) n'
  end.

(** The number of newlines of a text. *)
Definition newlines (s : str) : nat := count_occ N.eq_dec s 10%N.

(** Every key of the book is a word. *)
Definition names_are_words (book : AddressBook.t) : Prop :=
  forall k r, In (k, r) book -> word k.

(** ** Examples the statements run on *)

Definition alice : Rec.t :=
  Rec.make (Name.make (lit "Alice")) [Phone.make (lit "1234567890")] None.

Definition alice_no_phone : Rec.t :=
  Rec.make (Name.make (lit "Alice")) [] None.

Definition leap_day : Birthday.t := Birthday.make (Date.make 2000 2 29).

Definition bob_leap : Rec.t :=
  Rec.make (Name.make (lit "Bob")) [] (Some leap_day).

Definition alice_march : Rec.t :=
  Rec.make (Name.make (lit "Alice")) []
           (Some (Birthday.make (Date.make 1990 3 5))).

Definition newline : str := [10%N].

(** A record with the same number twice. *)
Definition twice : Rec.t :=
  Rec.make (Name.make (lit "Alice"))
           [Phone.make (lit "2222222222"); Phone.make (lit "1111111111");
            Phone.make (lit "3333333333"); Phone.make (lit "1111111111")]
           None.

(** A session: a greeting, a contact, a blank line, an exit. *)
Definition session_day : Date.t := Date.make 2026 11 3.

Definition two_lines : list (Date.t * str) :=
  [(session_day, lit "hello"); (session_day, lit "add Alice 1234567890")].

Definition blank_then_exit : list (Date.t * str) :=
  [(session_day, lit "   "); (session_day, lit "exit")].

(** * Properties *)

Unset Implicit Arguments.

(** ** Strings *)

Lemma str_eqb_eq (a b : str) : str_eqb a b = true <-> a = b.
Proof.
  revert b; induction a as [|x a IH]; intros [|y b]; simpl;
    try (split; [discriminate | discriminate]); [tauto|].
  rewrite andb_true_iff, N.eqb_eq, IH.
  split; [intros [-> ->]; reflexivity | intros H; injection H; auto].
Qed.

Lemma str_eqb_refl (a : str) : str_eqb a a = true.
Proof. apply str_eqb_eq; reflexivity. Qed.

Lemma str_eqb_neq (a b : str) : str_eqb a b = false <-> a <> b.
Proof.
  rewrite <- str_eqb_eq. destruct (str_eqb a b); split; congruence.
Qed.

(** ** Phone lists *)

Section PhoneLists.

Variable p : str.
Variables before after : list Phone.t.
Hypothesis first : forall q, In q before -> Phone.value q <> p.

Lemma find_first :
  List.find (fun q => str_eqb (Phone.value q) p)
    (before ++ Phone.make p :: after) = Some (Phone.make p).
Proof.
  induction before as [|q l IH]; simpl.
  - now rewrite str_eqb_refl.
  - assert (Hq : str_eqb (Phone.value q) p = false)
      by (apply str_eqb_neq, first; now left).
    rewrite Hq. apply IH. intros q' Hin. apply first. now right.
Qed.

Lemma list_remove_first :
  Rec.list_remove (Phone.make p) (before ++ Phone.make p :: after)
  = Ok (before ++ after).
Proof.
  induction before as [|q l IH]; simpl.
  - now rewrite str_eqb_refl.
  - assert (Hq : str_eqb (Phone.value q) p = false)
      by (apply str_eqb_neq, first; now left).
    rewrite Hq, IH; [reflexivity|].
    intros q' Hin. apply first. now right.
Qed.

End PhoneLists.

(** Every list that holds a number splits at its first occurrence. *)
Lemma first_occurrence (p : str) (l : list Phone.t) :
  In (Phone.make p) l ->
  exists before after,
    l = before ++ Phone.make p :: after
    /\ forall q, In q before -> Phone.value q <> p.
Proof.
  induction l as [|q l IH]; simpl; [tauto|].
  intros Hin.
  destruct (str_eqb (Phone.value q) p) eqn:E.
  - apply str_eqb_eq in E. exists [], l. destruct q as [v]; simpl in E; subst.
    split; [reflexivity | simpl; tauto].
  - apply str_eqb_neq in E.
    destruct Hin as [->|Hin]; [now elim E|].
    destruct (IH Hin) as (b & a & -> & Hb).
    exists (q :: b), a. split; [reflexivity|].
    intros q' [<-|Hq']; auto.
Qed.

Lemma remove_phone_first (r : Rec.t) (p : str) (before after : list Phone.t) :
  Rec.phones r = before ++ Phone.make p :: after ->
  (forall q, In q before -> Phone.value q <> p) ->
  Rec.remove_phone p r = (Ok tt, Rec.set_phones (before ++ after) r).
Proof.
  intros Hl Hfirst.
  unfold Rec.remove_phone, bind, get, Rec.find_phone. rewrite Hl.
  rewrite find_first by assumption.
  unfold lift, put. rewrite list_remove_first by assumption. reflexivity.
Qed.

Lemma remove_phone_absent (r : Rec.t) (p : str) :
  (forall q, In q (Rec.phones r) -> Phone.value q <> p) ->
  Rec.remove_phone p r = (Raise (ValueError (lit "Phone number not found.")), r).
Proof.
  intros Habs. unfold Rec.remove_phone, bind, get, Rec.find_phone.
  destruct (List.find _ _) as [q|] eqn:E; [|reflexivity].
  apply List.find_some in E. destruct E as [Hin E].
  apply str_eqb_eq in E. now elim (Habs q Hin).
Qed.

(** [edit_phone] with a number that [Phone] accepts. *)
Lemma edit_phone_valid (r : Rec.t) (old new : str) (before after : list Phone.t) :
  Rec.phones r = before ++ Phone.make old :: after ->
  (forall q, In q before -> Phone.value q <> old) ->
  Phone.validate new = true ->
  Rec.edit_phone old new r
  = (Ok tt, Rec.set_phones (before ++ after ++ [Phone.make new]) r).
Proof.
  intros Hl Hfirst Hv.
  unfold Rec.edit_phone, bind at 1. unfold get at 1, Rec.find_phone.
  rewrite Hl, find_first by assumption.
  unfold bind at 1. rewrite (remove_phone_first r old before after Hl Hfirst).
  unfold Rec.add_phone, bind, lift, Phone.init, get, put. rewrite Hv. simpl.
  unfold Rec.set_phones; simpl. now rewrite <- app_assoc.
Qed.

(** [edit_phone] with a number that [Phone] refuses: the old number has
    been taken out when the constructor raises. *)
Lemma edit_phone_invalid (r : Rec.t) (old new : str) (before after : list Phone.t) :
  Rec.phones r = before ++ Phone.make old :: after ->
  (forall q, In q before -> Phone.value q <> old) ->
  Phone.validate new = false ->
  Rec.edit_phone old new r
  = (Raise (ValueError (lit "Invalid phone number format. It must be 10 digits.")),
     Rec.set_phones (before ++ after) r).
Proof.
  intros Hl Hfirst Hv.
  unfold Rec.edit_phone, bind at 1. unfold get at 1, Rec.find_phone.
  rewrite Hl, find_first by assumption.
  unfold bind at 1. rewrite (remove_phone_first r old before after Hl Hfirst).
  unfold Rec.add_phone, bind, lift, Phone.init. rewrite Hv. reflexivity.
Qed.

Lemma edit_phone_absent (r : Rec.t) (old new : str) :
  (forall q, In q (Rec.phones r) -> Phone.value q <> old) ->
  Rec.edit_phone old new r
  = (Raise (ValueError (lit "Phone number not found.")), r).
Proof.
  intros Habs. unfold Rec.edit_phone, bind, get, Rec.find_phone.
  destruct (List.find _ _) as [q|] eqn:E; [|reflexivity].
  apply List.find_some in E. destruct E as [Hin E].
  apply str_eqb_eq in E. now elim (Habs q Hin).
Qed.

(** ** Phone numbers *)

Lemma digits_spec (n : nat) (s rest : str) :
  Phone.digits n s = Some rest
  <-> exists ds, List.length ds = n /\ forallb is_digit ds = true /\ s = ds ++ rest.
Proof.
  revert s; induction n as [|n IH]; intros s; simpl.
  - split.
    + intros [= ->]. now exists [].
    + intros ([|] & Hlen & _ & ->); [reflexivity | discriminate].
  - destruct s as [|c s].
    + split; [discriminate|].
      intros ([|] & Hlen & _ & H); discriminate.
    + destruct (is_digit c) eqn:Hc.
      * rewrite IH. split.
        -- intros (ds & Hlen & Hd & ->). exists (c :: ds); simpl.
           now rewrite Hlen, Hc, Hd.
        -- intros ([|c' ds] & Hlen & Hd & H); [discriminate|].
           simpl in *. injection H as <- ->. injection Hlen as Hlen.
           apply andb_true_iff in Hd. exists ds. tauto.
      * split; [discriminate|].
        intros ([|c' ds] & Hlen & Hd & H); [discriminate|].
        simpl in *. injection H as <- ->. rewrite Hc in Hd. discriminate.
Qed.

(** What [validate] accepts: ten digits, with or without one newline
    after them. *)
Lemma validate_spec (v : str) :
  Phone.validate v = true
  <-> exists ds, List.length ds = 10 /\ forallb is_digit ds = true
                 /\ (v = ds \/ v = ds ++ [10%N]).
Proof.
  unfold Phone.validate. split.
  - destruct (Phone.digits 10 v) as [rest|] eqn:E; [|discriminate].
    apply digits_spec in E. destruct E as (ds & Hlen & Hd & ->).
    intros Hr. exists ds. repeat split; trivial.
    destruct rest as [|c [|c' rest]]; simpl in Hr; try discriminate.
    + left. now rewrite app_nil_r.
    + right. apply N.eqb_eq in Hr. now subst.
  - intros (ds & Hlen & Hd & [->| ->]).
    + assert (E : Phone.digits 10 ds = Some [])
        by (apply digits_spec; exists ds; now rewrite app_nil_r).
      now rewrite E.
    + assert (E : Phone.digits 10 (ds ++ [10%N]) = Some [10%N])
        by (apply digits_spec; now exists ds).
      now rewrite E.
Qed.

Lemma init_accepts (v : str) :
  Phone.validate v = true -> Phone.init v = Ok (Phone.make v).
Proof. unfold Phone.init. now intros ->. Qed.

Lemma init_refuses (v : str) :
  Phone.validate v = false ->
  Phone.init v
  = Raise (ValueError (lit "Invalid phone number format. It must be 10 digits.")).
Proof. unfold Phone.init. now intros ->. Qed.

(** Ten digits are accepted and stored as they are. *)
Lemma init_ten_digits (v : str) :
  List.length v = 10 -> forallb is_digit v = true ->
  Phone.init v = Ok (Phone.make v).
Proof.
  intros Hlen Hd. apply init_accepts, validate_spec. exists v. tauto.
Qed.

(** A string shorter than ten characters or longer than eleven, or with a
    character other than a digit among its first ten, is refused. *)
Lemma init_refuses_length (v : str) :
  List.length v <> 10 -> List.length v <> 11 ->
  Phone.validate v = false.
Proof.
  intros H10 H11. destruct (Phone.validate v) eqn:E; [|reflexivity].
  apply validate_spec in E. destruct E as (ds & Hlen & _ & [->| ->]).
  - congruence.
  - rewrite length_app in H11. simpl in H11. lia.
Qed.

Lemma init_refuses_non_digit (v : str) :
  forallb is_digit (firstn 10 v) = false ->
  Phone.validate v = false.
Proof.
  intros Hd. destruct (Phone.validate v) eqn:E; [|reflexivity].
  apply validate_spec in E. destruct E as (ds & Hlen & Hds & [->| ->]).
  - rewrite <- Hlen, firstn_all in Hd. congruence.
  - rewrite <- Hlen, firstn_app, firstn_all, Nat.sub_diag in Hd.
    simpl in Hd. rewrite app_nil_r in Hd. congruence.
Qed.

(** ** The address book as a dictionary *)

Import AddressBook.

Lemma find_setitem_same (k : str) (r : Rec.t) (book : AddressBook.t) :
  find k (setitem k r book) = Some r.
Proof.
  induction book as [|[k' r'] book IH]; simpl.
  - now rewrite str_eqb_refl.
  - destruct (str_eqb k' k) eqn:E; simpl; rewrite E; auto.
Qed.

Lemma find_setitem_other (k k0 : str) (r : Rec.t) (book : AddressBook.t) :
  k0 <> k -> find k0 (setitem k r book) = find k0 book.
Proof.
  intros Hne. induction book as [|[k' r'] book IH]; simpl.
  - assert (E : str_eqb k k0 = false) by (apply str_eqb_neq; congruence).
    now rewrite E.
  - destruct (str_eqb k' k) eqn:E; simpl.
    + apply str_eqb_eq in E. subst k'.
      assert (E : str_eqb k k0 = false) by (apply str_eqb_neq; congruence).
      now rewrite E.
    + now rewrite IH.
Qed.

Lemma find_none_keys (k : str) (book : AddressBook.t) :
  find k book = None <-> ~ In k (List.map fst book).
Proof.
  induction book as [|[k' r'] book IH]; simpl; [tauto|].
  destruct (str_eqb k' k) eqn:E.
  - apply str_eqb_eq in E. split; [discriminate | intros H; elim H; now left].
  - apply str_eqb_neq in E. rewrite IH. tauto.
Qed.

(** A key that is absent is put at the end. *)
Lemma setitem_absent (k : str) (r : Rec.t) (book : AddressBook.t) :
  find k book = None -> setitem k r book = book ++ [(k, r)].
Proof.
  induction book as [|[k' r'] book IH]; simpl; [reflexivity|].
  destruct (str_eqb k' k); [discriminate|]. intros H. now rewrite IH.
Qed.

Lemma setitem_keys (k : str) (r r0 : Rec.t) (book : AddressBook.t) :
  find k book = Some r0 ->
  List.map fst (setitem k r book) = List.map fst book.
Proof.
  induction book as [|[k' r'] book IH]; simpl; [discriminate|].
  destruct (str_eqb k' k); simpl; [reflexivity|].
  intros H. now rewrite IH.
Qed.

Lemma delitem_other (k k0 : str) (book : AddressBook.t) :
  k0 <> k -> find k0 (delitem k book) = find k0 book.
Proof.
  intros Hne. induction book as [|[k' r'] book IH]; simpl; [reflexivity|].
  destruct (str_eqb k' k) eqn:E; simpl.
  - apply str_eqb_eq in E. subst k'.
    assert (E : str_eqb k k0 = false) by (apply str_eqb_neq; congruence).
    now rewrite E.
  - now rewrite IH.
Qed.

(** In a dictionary, deleting a key leaves the other items, in their
    order. *)
Lemma delitem_filter (k : str) (book : AddressBook.t) :
  wf book ->
  delitem k book = List.filter (fun kr => negb (str_eqb (fst kr) k)) book.
Proof.
  unfold wf. induction book as [|[k' r'] book IH]; simpl; [reflexivity|].
  intros Hnd. inversion Hnd as [|? ? Hnotin Hnd']; subst.
  destruct (str_eqb k' k) eqn:E; simpl.
  - apply str_eqb_eq in E. subst k'.
    symmetry. apply forallb_filter_id. apply forallb_forall.
    intros [k1 r1] Hin. simpl. apply negb_true_iff, str_eqb_neq.
    intros ->. apply Hnotin. change k with (fst (k, r1)). now apply in_map.
  - now rewrite IH.
Qed.

Lemma delitem_same (k : str) (book : AddressBook.t) :
  wf book -> find k (delitem k book) = None.
Proof.
  intros Hwf. rewrite delitem_filter by assumption.
  apply find_none_keys. intros Hin. apply in_map_iff in Hin.
  destruct Hin as ([k' r'] & Hk & Hin). simpl in Hk. subst k'.
  apply filter_In in Hin. destruct Hin as [_ Hneq]. simpl in Hneq.
  now rewrite str_eqb_refl in Hneq.
Qed.

Lemma delitem_wf (k : str) (book : AddressBook.t) :
  wf book -> wf (delitem k book).
Proof.
  unfold wf. induction book as [|[k' r'] book IH]; simpl; [auto|].
  intros Hnd. inversion Hnd as [|? ? Hnotin Hnd']; subst.
  destruct (str_eqb k' k); simpl; [assumption|].
  constructor; [|auto].
  intros Hin. apply Hnotin. apply in_map_iff in Hin.
  destruct Hin as ([k1 r1] & Hk & Hin). simpl in Hk. subst k1.
  apply in_map_iff. exists (k', r1). split; [reflexivity|].
  clear -Hin. induction book as [|[k2 r2] book IH]; simpl in *; [tauto|].
  destruct (str_eqb k2 k); simpl in *; [now right|].
  destruct Hin as [Hin|Hin]; [now left | right; auto].
Qed.

Lemma setitem_wf (k : str) (r : Rec.t) (book : AddressBook.t) :
  wf book -> wf (setitem k r book).
Proof.
  unfold wf. intros Hnd.
  destruct (find k book) as [r0|] eqn:E.
  - now rewrite (setitem_keys k r r0 book E).
  - rewrite setitem_absent by assumption.
    rewrite map_app. simpl. apply find_none_keys in E.
    apply NoDup_app; [assumption | repeat constructor; simpl; tauto |].
    intros x Hx [<-|[]]. contradiction.
Qed.

(** ** Ordinals of dates *)

Section Ordinals.

Local Open Scope Z_scope.
Import Date.

Lemma is_leap_cases (y : Z) :
  (is_leap y = true /\ y mod 4 = 0 /\ (y mod 100 <> 0 \/ y mod 400 = 0))
  \/ (is_leap y = false /\ (y mod 4 <> 0 \/ (y mod 100 = 0 /\ y mod 400 <> 0))).
Proof.
  unfold is_leap.
  destruct (Z.eqb_spec (y mod 4) 0), (Z.eqb_spec (y mod 100) 0),
    (Z.eqb_spec (y mod 400) 0); simpl; tauto.
Qed.

Lemma days_before_year_succ (y : Z) :
  days_before_year (y + 1) = days_before_year y + days_in_year y.
Proof.
  unfold days_before_year, days_in_year.
  destruct (is_leap_cases y) as [(-> & H4 & H)|(-> & H)];
    Z.div_mod_to_equations; lia.
Qed.

Lemma days_before_year_mono (y1 y2 : Z) :
  y1 <= y2 -> days_before_year y1 <= days_before_year y2.
Proof.
  unfold days_before_year. intros H. Z.div_mod_to_equations. lia.
Qed.

Lemma days_before_next_year (y1 y2 : Z) :
  y1 < y2 -> days_before_year y1 + days_in_year y1 <= days_before_year y2.
Proof.
  intros H. rewrite <- days_before_year_succ.
  apply days_before_year_mono. lia.
Qed.

Ltac months m :=
  assert (m = 1 \/ m = 2 \/ m = 3 \/ m = 4 \/ m = 5 \/ m = 6 \/ m = 7
          \/ m = 8 \/ m = 9 \/ m = 10 \/ m = 11 \/ m = 12) by lia.

(** The day of the year of a date. *)
Lemma day_of_year_bounds (d : Date.t) :
  valid d ->
  1 <= days_before_month (year d) (month d) + day d <= days_in_year (year d).
Proof.
  intros (_ & Hm & Hd). months (month d).
  unfold days_before_month, days_in_month, days_in_year in *.
  destruct (is_leap (year d));
    repeat match goal with
           | H : _ \/ _ |- _ => destruct H as [H|H]
           end;
    rewrite H in *; cbn -[Z.add Z.sub Z.mul] in *; lia.
Qed.

Lemma day_of_year_lt (y m1 d1 m2 d2 : Z) :
  1 <= m1 <= 12 -> 1 <= m2 <= 12 ->
  1 <= d1 <= days_in_month y m1 -> 1 <= d2 <= days_in_month y m2 ->
  m1 < m2 \/ (m1 = m2 /\ d1 < d2) ->
  days_before_month y m1 + d1 < days_before_month y m2 + d2.
Proof.
  intros Hm1 Hm2 Hd1 Hd2 [Hlt|[-> Hlt]]; [|lia].
  months m1. months m2.
  unfold days_before_month, days_in_month in *.
  destruct (is_leap y);
    repeat match goal with
           | H : _ \/ _ |- _ => destruct H as [H|H]
           end;
    subst; cbn -[Z.add Z.sub Z.mul] in *; lia.
Qed.

Lemma lt_cases (a b : Date.t) :
  Date.lt a b = true
  <-> year a < year b
      \/ (year a = year b
          /\ (month a < month b \/ (month a = month b /\ day a < day b))).
Proof.
  unfold Date.lt.
  rewrite !orb_true_iff, !andb_true_iff, !orb_true_iff, !andb_true_iff,
    !Z.ltb_lt, !Z.eqb_eq. tauto.
Qed.

(** The order of dates is the order of their ordinals. *)
Lemma toordinal_lt (a b : Date.t) :
  valid a -> valid b -> Date.lt a b = true -> toordinal a < toordinal b.
Proof.
  intros Ha Hb Hlt. apply lt_cases in Hlt. unfold toordinal.
  destruct Hlt as [Hy|[Hy Hmd]].
  - pose proof (days_before_next_year _ _ Hy).
    pose proof (day_of_year_bounds a Ha).
    pose proof (day_of_year_bounds b Hb). lia.
  - destruct Ha as (_ & Hma & Hda), Hb as (_ & Hmb & Hdb).
    rewrite Hy in *.
    pose proof (day_of_year_lt (year b) _ _ _ _ Hma Hmb Hda Hdb Hmd). lia.
Qed.

Lemma toordinal_le (a b : Date.t) :
  valid a -> valid b -> Date.lt a b = false -> toordinal b <= toordinal a.
Proof.
  intros Ha Hb Hlt.
  destruct (Date.lt b a) eqn:Hba.
  - pose proof (toordinal_lt b a Hb Ha Hba). lia.
  - assert (Heq : year a = year b /\ month a = month b /\ day a = day b).
    { assert (Hn1 : ~ Date.lt a b = true) by congruence.
      assert (Hn2 : ~ Date.lt b a = true) by congruence.
      rewrite lt_cases in Hn1, Hn2. lia. }
    unfold toordinal. destruct Heq as (-> & -> & ->). lia.
Qed.

Lemma new_valid (y m d : Z) :
  valid (Date.make y m d) -> Date.new y m d = Ok (Date.make y m d).
Proof.
  unfold valid, Date.new, MINYEAR, MAXYEAR. simpl. intros (Hy & Hm & Hd).
  replace ((1 <=? y) && (y <=? 9999)) with true by (symmetry; apply andb_true_iff; lia).
  replace ((1 <=? m) && (m <=? 12)) with true by (symmetry; apply andb_true_iff; lia).
  replace ((1 <=? d) && (d <=? days_in_month y m)) with true
    by (symmetry; apply andb_true_iff; lia).
  reflexivity.
Qed.

Lemma new_ok (y m d : Z) (dt : Date.t) :
  Date.new y m d = Ok dt -> dt = Date.make y m d /\ valid dt.
Proof.
  unfold valid, Date.new, MINYEAR, MAXYEAR.
  destruct ((1 <=? y) && (y <=? 9999)) eqn:Hy; simpl; [|discriminate].
  destruct ((1 <=? m) && (m <=? 12)) eqn:Hm; simpl; [|discriminate].
  destruct ((1 <=? d) && (d <=? days_in_month y m)) eqn:Hd; simpl; [|discriminate].
  intros [= <-]. cbn [year month day].
  rewrite andb_true_iff, !Z.leb_le in Hy, Hm, Hd. tauto.
Qed.

(** A date other than the 29th of February exists in every year. *)
Lemma valid_any_year (d : Date.t) (y : Z) :
  valid d -> ~ (month d = 2 /\ day d = 29) ->
  MINYEAR <= y <= MAXYEAR ->
  valid (Date.make y (month d) (day d)).
Proof.
  unfold valid. simpl. intros (_ & Hm & Hd) Hleap Hy.
  repeat split; try lia.
  months (month d). unfold days_in_month in *.
  destruct (is_leap y), (is_leap (year d));
    repeat match goal with
           | H : _ \/ _ |- _ => destruct H as [H|H]
           end;
    rewrite H in *; cbn -[Z.add Z.sub Z.mul] in *; lia.
Qed.

End Ordinals.

(** ** Days to the birthday *)

Section DaysToBirthday.

Local Open Scope Z_scope.
Import Date.

Variable today : Date.t.
Hypothesis today_valid : valid today.

Lemma days_no_birthday (r : Rec.t) :
  Rec.birthday r = None -> Rec.days_to_birthday today r = Ok None.
Proof. unfold Rec.days_to_birthday. now intros ->. Qed.

(** The birthday, when it exists this year and, if it is over, next
    year: the count runs to its next occurrence and is not negative. *)
Lemma days_to_next (r : Rec.t) (b : Birthday.t) :
  Rec.birthday r = Some b ->
  valid (birthday_in (year today) b) ->
  (Date.lt (birthday_in (year today) b) today = true ->
   valid (birthday_in (year today + 1) b)) ->
  let next :=
    if Date.lt (birthday_in (year today) b) today
    then birthday_in (year today + 1) b
    else birthday_in (year today) b in
  Rec.days_to_birthday today r = Ok (Some (toordinal next - toordinal today))
  /\ 0 <= toordinal next - toordinal today
  /\ Date.lt next today = false.
Proof.
  intros Hb Hthis Hnext. unfold Rec.days_to_birthday, replace_year.
  rewrite Hb. fold (birthday_in (year today) b).
  unfold birthday_in at 1. rewrite (new_valid _ _ _ Hthis).
  fold (birthday_in (year today) b).
  destruct (Date.lt (birthday_in (year today) b) today) eqn:Hlt; cbv zeta.
  - specialize (Hnext eq_refl).
    assert (Hnot : Date.lt (birthday_in (year today + 1) b) today = false).
    { destruct (Date.lt (birthday_in (year today + 1) b) today) eqn:E; [|reflexivity].
      apply lt_cases in E. unfold birthday_in in E. simpl in E. lia. }
    rewrite (new_valid _ _ _ Hnext). fold (birthday_in (year today + 1) b).
    split; [reflexivity|]. split; [|assumption].
    pose proof (toordinal_le _ _ Hnext today_valid Hnot). lia.
  - split; [reflexivity|]. split; [|assumption].
    pose proof (toordinal_le _ _ Hthis today_valid Hlt). lia.
Qed.

(** Any birthday but the 29th of February, any year but the last. *)
Lemma days_to_birthday_plain (r : Rec.t) (b : Birthday.t) :
  Rec.birthday r = Some b ->
  valid (Birthday.value b) ->
  ~ (month (Birthday.value b) = 2 /\ day (Birthday.value b) = 29) ->
  year today < MAXYEAR ->
  exists d, Rec.days_to_birthday today r = Ok (Some d) /\ 0 <= d.
Proof.
  intros Hb Hv Hleap Hy.
  assert (Hty : MINYEAR <= year today <= MAXYEAR) by apply today_valid.
  destruct (days_to_next r b Hb) as (H & Hpos & _).
  - apply valid_any_year; trivial.
  - intros _. apply valid_any_year; trivial. unfold MINYEAR in *. lia.
  - eauto.
Qed.

(** A birthday that falls today. *)
Lemma days_birthday_today (r : Rec.t) (b : Birthday.t) :
  Rec.birthday r = Some b ->
  month (Birthday.value b) = month today ->
  day (Birthday.value b) = day today ->
  Rec.days_to_birthday today r = Ok (Some 0).
Proof.
  intros Hb Hm Hd.
  assert (Heq : birthday_in (year today) b = today)
    by (unfold birthday_in; rewrite Hm, Hd; now destruct today).
  destruct (days_to_next r b Hb) as (H & _ & _).
  - now rewrite Heq.
  - rewrite Heq. intros Hlt. apply lt_cases in Hlt. lia.
  - rewrite H, Heq.
    replace (Date.lt today today) with false.
    + now rewrite Z.sub_diag.
    + symmetry. destruct (Date.lt today today) eqn:E; [|reflexivity].
      apply lt_cases in E. lia.
Qed.

Lemma tomorrow_ordinal :
  toordinal (tomorrow today) = toordinal today + 1.
Proof.
  destruct today_valid as (_ & Hm & Hd). unfold tomorrow, toordinal.
  destruct (Z.ltb_spec (day today) (days_in_month (year today) (month today))) as [Hlt|Hge];
    [simpl; lia|].
  destruct (Z.ltb_spec (month today) 12) as [Hm12|Hm12]; cbn [year month day].
  - assert (month today = 1 \/ month today = 2 \/ month today = 3
            \/ month today = 4 \/ month today = 5 \/ month today = 6
            \/ month today = 7 \/ month today = 8 \/ month today = 9
            \/ month today = 10 \/ month today = 11) by lia.
    unfold days_before_month, days_in_month in *.
    destruct (is_leap (year today));
      repeat match goal with
             | H : _ \/ _ |- _ => destruct H as [H|H]
             end;
      rewrite H in *;
      match goal with
      | |- context [Z.pos ?p + 1] =>
          let v := eval compute in (Z.pos p + 1) in
          change (Z.pos p + 1) with v
      end;
      cbn -[Z.add Z.sub Z.mul] in *; lia.
  - assert (H12 : month today = 12) by lia.
    rewrite days_before_year_succ. unfold days_in_year.
    unfold days_before_month, days_in_month in *. rewrite H12 in *.
    destruct (is_leap (year today)); cbn -[Z.add Z.sub Z.mul] in *; lia.
Qed.

Lemma tomorrow_valid :
  year (tomorrow today) <= MAXYEAR -> valid (tomorrow today).
Proof.
  destruct today_valid as (Hy & Hm & Hd). unfold tomorrow, valid.
  destruct (Z.ltb_spec (day today) (days_in_month (year today) (month today))) as [Hlt|Hge];
    cbn [year month day]; [lia|].
  destruct (Z.ltb_spec (month today) 12) as [Hm12|Hm12]; cbn [year month day].
  - intros _. repeat split; try lia.
    assert (month today = 1 \/ month today = 2 \/ month today = 3
            \/ month today = 4 \/ month today = 5 \/ month today = 6
            \/ month today = 7 \/ month today = 8 \/ month today = 9
            \/ month today = 10 \/ month today = 11) by lia.
    unfold days_in_month.
    destruct (is_leap (year today));
      repeat match goal with
             | H : _ \/ _ |- _ => destruct H as [H|H]
             end;
      rewrite H;
      match goal with
      | |- context [Z.pos ?p + 1] =>
          let v := eval compute in (Z.pos p + 1) in
          change (Z.pos p + 1) with v
      end;
      cbn -[Z.add Z.sub Z.mul]; lia.
  - intros Hmax. unfold MINYEAR in *. cbn. lia.
Qed.

(** A birthday that falls tomorrow. *)
Lemma days_birthday_tomorrow (r : Rec.t) (b : Birthday.t) :
  Rec.birthday r = Some b ->
  year (tomorrow today) <= MAXYEAR ->
  month (Birthday.value b) = month (tomorrow today) ->
  day (Birthday.value b) = day (tomorrow today) ->
  Rec.days_to_birthday today r = Ok (Some 1).
Proof.
  intros Hb Hmax Hm Hd.
  pose proof (tomorrow_valid Hmax) as Hv.
  pose proof tomorrow_ordinal as Hord.
  assert (Hty : year (tomorrow today) = year today
                \/ (year (tomorrow today) = year today + 1
                    /\ month (tomorrow today) = 1 /\ day (tomorrow today) = 1
                    /\ month today = 12)).
  { unfold tomorrow.
    destruct (day today <? _); [now left|].
    destruct (Z.ltb_spec (month today) 12); [now left|].
    right. cbn. destruct today_valid as (_ & ? & _). lia. }
  destruct Hty as [Hsame|(Hnext & Hm1 & Hd1 & Hm12)].
  - assert (Heq : birthday_in (year today) b = tomorrow today)
      by (unfold birthday_in; rewrite Hm, Hd, <- Hsame; now destruct (tomorrow today)).
    assert (Hlt : Date.lt (tomorrow today) today = false).
    { destruct (Date.lt (tomorrow today) today) eqn:E; [|reflexivity].
      pose proof (toordinal_lt _ _ Hv today_valid E). lia. }
    destruct (days_to_next r b Hb) as (H & _ & _).
    + now rewrite Heq.
    + rewrite Heq, Hlt. discriminate.
    + rewrite H, Heq, Hlt. f_equal. f_equal. lia.
  - assert (Heq : birthday_in (year today + 1) b = tomorrow today)
      by (unfold birthday_in; rewrite Hm, Hd, <- Hnext; now destruct (tomorrow today)).
    assert (Hthis : birthday_in (year today) b = Date.make (year today) 1 1)
      by (unfold birthday_in; now rewrite Hm, Hd, Hm1, Hd1).
    assert (Hlt : Date.lt (Date.make (year today) 1 1) today = true)
      by (apply lt_cases; cbn; lia).
    destruct (days_to_next r b Hb) as (H & _ & _).
    + rewrite Hthis. destruct today_valid as (? & _ & _).
      unfold valid. cbn. lia.
    + intros _. now rewrite Heq.
    + rewrite H, Hthis, Hlt, Heq. f_equal. f_equal. lia.
Qed.

End DaysToBirthday.

(** ** The scan for upcoming birthdays *)

Lemma scan_flat_map (today : Date.t) (records : list Rec.t) :
  (forall r, In r records -> exists d, Rec.days_to_birthday today r = Ok d) ->
  AddressBook.scan today records = Ok (List.flat_map (upcoming_of today) records).
Proof.
  induction records as [|r rs IH]; simpl; [reflexivity|].
  intros Hall. destruct (Hall r (or_introl eq_refl)) as [d Hd].
  unfold upcoming_of at 1. rewrite Hd, IH by (intros; apply Hall; now right).
  reflexivity.
Qed.

Lemma scan_raises (today : Date.t) (records : list Rec.t) (r : Rec.t) (e : exn) :
  In r records -> Rec.days_to_birthday today r = Raise e ->
  exists e', AddressBook.scan today records = Raise e'.
Proof.
  induction records as [|r' rs IH]; simpl; [tauto|].
  intros [->|Hin] He.
  - rewrite He. eauto.
  - destruct (Rec.days_to_birthday today r'); [|eauto].
    destruct (IH Hin He) as [e' ->]. eauto.
Qed.

(** ** The matcher *)

Lemma match_seq_spec (a : list Re.cls) (s m rest : str) :
  Re.match_seq a s = Some (m, rest) <-> s = m ++ rest /\ fits a m = true.
Proof.
  split.
  - revert s m; induction a as [|p a IH]; intros s m; simpl.
    + intros [= <- <-]. auto.
    + destruct s as [|c s]; [discriminate|].
      destruct (p c) eqn:Hp; [|discriminate].
      destruct (Re.match_seq a s) as [[m' r']|] eqn:E; [|discriminate].
      intros [= <- <-]. destruct (IH _ _ E) as [-> F].
      simpl. now rewrite Hp, F.
  - intros [-> F]. revert m F; induction a as [|p a IH]; intros [|c m] F;
      simpl in *; try discriminate; [reflexivity|].
    apply andb_true_iff in F. destruct F as [-> F].
    now rewrite (IH m F).
Qed.

Section FirstAlt.

Variable A : Type.
Variable k : str -> option A.

Lemma first_alt_sound (alts : list (list Re.cls)) (s m : str) (x : A) :
  Re.first_alt k alts s = Some (m, x) ->
  exists alt rest,
    In alt alts /\ fits alt m = true /\ s = m ++ rest /\ k rest = Some x.
Proof.
  induction alts as [|a alts IH]; simpl; [discriminate|].
  destruct (Re.match_seq a s) as [[m' r]|] eqn:E.
  - destruct (k r) as [x'|] eqn:Hk.
    + intros [= <- <-]. apply match_seq_spec in E. destruct E as [-> F].
      exists a, r. tauto.
    + intros H. destruct (IH H) as (alt & rest & ? & ? & ? & ?).
      exists alt, rest. tauto.
  - intros H. destruct (IH H) as (alt & rest & ? & ? & ? & ?).
    exists alt, rest. tauto.
Qed.

Lemma first_alt_complete (alts : list (list Re.cls)) (alt : list Re.cls)
      (m rest : str) (x : A) :
  In alt alts -> fits alt m = true -> k rest = Some x ->
  exists m' x', Re.first_alt k alts (m ++ rest) = Some (m', x').
Proof.
  intros Hin F Hk. induction alts as [|a alts IH]; simpl; [destruct Hin|].
  destruct (Re.match_seq a (m ++ rest)) as [[m' r]|] eqn:E.
  - destruct (k r) as [x'|] eqn:Hk'; [eauto|].
    destruct Hin as [->|Hin]; [|auto].
    assert (E' : Re.match_seq alt (m ++ rest) = Some (m, rest))
      by (apply match_seq_spec; auto).
    congruence.
  - destruct Hin as [->|Hin]; [|auto].
    assert (E' : Re.match_seq alt (m ++ rest) = Some (m, rest))
      by (apply match_seq_spec; auto).
    congruence.
Qed.

End FirstAlt.

Lemma match_groups_sound (p : list (list (list Re.cls))) (s rest : str)
      (caps : list str) :
  Re.match_groups p s = Some (caps, rest) ->
  texts p caps /\ s = List.concat caps ++ rest.
Proof.
  revert s caps; induction p as [|g p IH]; intros s caps; simpl.
  - intros [= <- <-]. split; [constructor | reflexivity].
  - destruct (Re.first_alt (Re.match_groups p) g s) as [[m [caps' rest']]|] eqn:E;
      [|discriminate].
    intros [= <- <-]. apply first_alt_sound in E.
    destruct E as (alt & r & Hin & F & -> & Hk).
    apply IH in Hk. destruct Hk as [Ht ->]. split.
    + econstructor; eauto.
    + simpl. now rewrite <- app_assoc.
Qed.

Lemma match_groups_complete (p : list (list (list Re.cls))) (caps : list str)
      (rest : str) :
  texts p caps ->
  exists caps' rest',
    Re.match_groups p (List.concat caps ++ rest) = Some (caps', rest').
Proof.
  induction 1 as [|g p alt c caps Hin F Ht IH]; simpl; [eauto|].
  destruct IH as (caps' & rest' & IH).
  destruct (first_alt_complete _ (Re.match_groups p) g alt c
              (List.concat caps ++ rest) (caps', rest') Hin F IH)
    as (m' & [caps'' rest''] & E).
  rewrite <- app_assoc, E. eauto.
Qed.

(** ** The format of a birthday *)

Ltac atoms :=
  repeat match goal with
         | |- context [is_char ?x ?c] => destruct (is_char x c)
         | |- context [in_range ?x ?y ?c] => destruct (in_range x y c)
         | |- context [is_digit ?c] => destruct (is_digit c)
         end.

Lemma day_alts (d : str) :
  existsb (fun alt => fits alt d) Birthday.re_d = day_text d.
Proof.
  destruct d as [|a [|b [|c d]]];
    cbn [existsb fits Birthday.re_d day_text]; atoms; reflexivity.
Qed.

Lemma month_alts (m : str) :
  existsb (fun alt => fits alt m) Birthday.re_m = month_text m.
Proof.
  destruct m as [|a [|b [|c m]]];
    cbn [existsb fits Birthday.re_m month_text]; atoms; reflexivity.
Qed.

Lemma year_alts (y : str) :
  existsb (fun alt => fits alt y) Birthday.re_Y = year_text y.
Proof.
  destruct y as [|a [|b [|c [|d [|e y]]]]];
    cbn [existsb fits Birthday.re_Y year_text]; atoms; reflexivity.
Qed.

Lemma dot_alts (c : str) :
  existsb (fun alt => fits alt c) Birthday.re_dot = true <-> c = lit ".".
Proof.
  destruct c as [|a [|b c]]; cbn [existsb fits Birthday.re_dot];
    rewrite ?orb_false_r, ?andb_true_r, ?andb_false_r;
    try (split; discriminate).
  unfold is_char. change (lit ".") with [46%N]. cbv beta iota.
  rewrite N.eqb_eq. split; congruence.
Qed.

Lemma alt_exists (g : list (list Re.cls)) (c : str) :
  (exists alt, In alt g /\ fits alt c = true)
  <-> existsb (fun alt => fits alt c) g = true.
Proof. symmetry. apply existsb_exists. Qed.

Lemma texts_format (caps : list str) :
  texts Birthday.format_regex caps
  <-> exists d m y,
        caps = [d; lit "."; m; lit "."; y]
        /\ day_text d = true /\ month_text m = true /\ year_text y = true.
Proof.
  unfold Birthday.format_regex. split.
  - intros H.
    repeat match goal with
           | H : texts (_ :: _) _ |- _ => inversion H; clear H; subst
           | H : texts [] _ |- _ => inversion H; clear H; subst
           end.
    repeat match goal with
           | Hin : In ?alt ?g, F : fits ?alt ?c = true |- _ =>
               assert (existsb (fun alt => fits alt c) g = true)
                 by (apply alt_exists; eauto);
               clear Hin F
           end.
    repeat match goal with
           | H : existsb _ Birthday.re_dot = true |- _ =>
               apply dot_alts in H; subst
           end.
    rewrite day_alts, month_alts, year_alts in *. eauto 10.
  - intros (d & m & y & -> & Hd & Hm & Hy).
    rewrite <- day_alts in Hd. rewrite <- month_alts in Hm.
    rewrite <- year_alts in Hy.
    assert (Hdot : existsb (fun alt => fits alt (lit ".")) Birthday.re_dot = true)
      by (now apply dot_alts).
    apply alt_exists in Hd, Hm, Hy, Hdot.
    destruct Hd as (? & ? & ?), Hm as (? & ? & ?), Hy as (? & ? & ?),
        Hdot as (? & ? & ?).
    repeat (econstructor; eauto).
Qed.

Lemma day_no_dot (d : str) : day_text d = true -> ~ In 46%N d.
Proof.
  destruct d as [|a [|b [|c d]]]; try discriminate;
    intros H Hin; simpl in Hin;
    repeat match goal with
           | H : _ \/ _ |- _ => destruct H as [H|H]
           | H : False |- _ => destruct H
           end;
    subst; revert H; cbn; atoms; discriminate.
Qed.

Lemma month_no_dot (m : str) : month_text m = true -> ~ In 46%N m.
Proof.
  destruct m as [|a [|b [|c m]]]; try discriminate;
    intros H Hin; simpl in Hin;
    repeat match goal with
           | H : _ \/ _ |- _ => destruct H as [H|H]
           | H : False |- _ => destruct H
           end;
    subst; revert H; cbn; atoms; discriminate.
Qed.

Lemma split_at_dot (a a' t t' : str) :
  ~ In 46%N a -> ~ In 46%N a' ->
  a ++ 46%N :: t = a' ++ 46%N :: t' -> a = a' /\ t = t'.
Proof.
  revert a'; induction a as [|c a IH]; intros [|c' a']; simpl; intros Ha Ha' H.
  - injection H as ->. auto.
  - injection H as <- _. tauto.
  - injection H as -> _. tauto.
  - injection H as <- H. destruct (IH a') as [-> ->]; tauto.
Qed.

Lemma year_length (y : str) : year_text y = true -> List.length y = 4%nat.
Proof.
  destruct y as [|a [|b [|c [|d [|e y]]]]]; simpl; try discriminate; reflexivity.
Qed.

(** The string is read in one way at most. *)
Lemma format_unique (d m y d' m' y' rest : str) :
  day_text d = true -> month_text m = true -> year_text y = true ->
  day_text d' = true -> month_text m' = true -> year_text y' = true ->
  d ++ lit "." ++ m ++ lit "." ++ y = d' ++ lit "." ++ m' ++ lit "." ++ y' ++ rest ->
  d = d' /\ m = m' /\ y = y' /\ rest = [].
Proof.
  intros Hd Hm Hy Hd' Hm' Hy' H. change (lit ".") with [46%N] in H. simpl in H.
  apply split_at_dot in H; auto using day_no_dot. destruct H as [-> H].
  apply split_at_dot in H; auto using month_no_dot. destruct H as [-> H].
  apply year_length in Hy, Hy'.
  assert (Hlen : List.length y = List.length (y' ++ rest)) by now rewrite H.
  rewrite length_app in Hlen.
  assert (rest = []) by (destruct rest; [reflexivity | simpl in Hlen; lia]).
  subst rest. rewrite app_nil_r in H. auto.
Qed.

Lemma concat_format (d m y rest : str) :
  List.concat [d; lit "."; m; lit "."; y] ++ rest
  = d ++ lit "." ++ m ++ lit "." ++ y ++ rest.
Proof. cbn [List.concat]. now rewrite app_nil_r, <- !app_assoc. Qed.

(** [strptime] reads exactly the strings of the format that name a date. *)
Lemma strptime_reads (v : str) (dt : Date.t) :
  Birthday.strptime_dmY v = Some dt <-> reads v dt.
Proof.
  unfold Birthday.strptime_dmY, reads. split.
  - destruct (Re.match_groups Birthday.format_regex v) as [[caps rest]|] eqn:E;
      [|discriminate].
    apply match_groups_sound in E. destruct E as [Ht ->].
    apply texts_format in Ht. destruct Ht as (d & m & y & -> & Hd & Hm & Hy).
    destruct rest; [|discriminate].
    destruct (Birthday.int y) as [yn|] eqn:Iy; [|discriminate].
    destruct (Birthday.int m) as [mn|] eqn:Im; [|discriminate].
    destruct (Birthday.int d) as [dn|] eqn:Id; [|discriminate].
    destruct (Date.new yn mn dn) as [dt'|] eqn:En; [|discriminate].
    intros [= ->]. apply new_ok in En. destruct En as [-> Hv].
    exists d, m, y. rewrite concat_format, app_nil_r. tauto.
  - intros (d & m & y & -> & Hd & Hm & Hy & Id & Im & Iy & Hv).
    assert (Ht : texts Birthday.format_regex [d; lit "."; m; lit "."; y])
      by (apply texts_format; eauto 10).
    destruct (match_groups_complete _ _ [] Ht) as (caps' & rest' & E).
    pose proof (match_groups_sound _ _ _ _ E) as [Ht' Hcat].
    apply texts_format in Ht'. destruct Ht' as (d' & m' & y' & -> & Hd' & Hm' & Hy').
    repeat rewrite concat_format in Hcat. rewrite concat_format in E.
    rewrite !app_nil_r in Hcat, E.
    destruct (format_unique _ _ _ _ _ _ _ Hd Hm Hy Hd' Hm' Hy' Hcat)
      as (<- & <- & <- & ->).
    rewrite E, Iy, Im, Id.
    rewrite new_valid by (now destruct dt). now destruct dt.
Qed.

(** ** Strings of the strict format *)

Ltac charfacts :=
  repeat match goal with
         | H : in_range ?x ?y ?c = true |- _ =>
             unfold in_range in H;
             let a := eval vm_compute in (lit x) in
             let b := eval vm_compute in (lit y) in
             change (lit x) with a in H; change (lit y) with b in H;
             cbv beta iota in H;
             apply andb_true_iff in H; rewrite !N.leb_le in H
         | H : is_char ?x ?c = true |- _ =>
             unfold is_char in H;
             let a := eval vm_compute in (lit x) in
             change (lit x) with a in H;
             cbv beta iota in H; apply N.eqb_eq in H
         end.

Ltac enum c :=
  let H := fresh in
  assert (H : (c = 48 \/ c = 49 \/ c = 50 \/ c = 51 \/ c = 52 \/ c = 53
               \/ c = 54 \/ c = 55 \/ c = 56 \/ c = 57)%N) by lia;
  repeat destruct H as [H|H]; subst c.

Lemma ascii_digit_value (c : N) :
  in_range "0" "9" c = true ->
  digit_value c = Some (c - 48)%N /\ is_digit c = true.
Proof. intros H. charfacts. enum c; split; reflexivity. Qed.

Lemma days_in_month_le (y m : Z) : (Date.days_in_month y m <= 31)%Z.
Proof.
  unfold Date.days_in_month. destruct (Date.is_leap y);
    destruct m as [|p|p]; try lia;
    repeat (destruct p as [p|p|]; try lia).
Qed.

Lemma day_strict (d1 d2 : N) :
  in_range "0" "9" d1 = true -> in_range "0" "9" d2 = true ->
  (1 <= 10 * digit d1 + digit d2 <= 31)%Z ->
  day_text [d1; d2] = true
  /\ Birthday.int [d1; d2] = Some (10 * digit d1 + digit d2)%Z.
Proof.
  intros H1 H2 Hr. charfacts. unfold digit in *.
  enum d1; enum d2; first [ split; reflexivity | exfalso; lia ].
Qed.

Lemma month_strict (m1 m2 : N) :
  in_range "0" "9" m1 = true -> in_range "0" "9" m2 = true ->
  (1 <= 10 * digit m1 + digit m2 <= 12)%Z ->
  month_text [m1; m2] = true
  /\ Birthday.int [m1; m2] = Some (10 * digit m1 + digit m2)%Z.
Proof.
  intros H1 H2 Hr. charfacts. unfold digit in *.
  enum m1; enum m2; first [ split; reflexivity | exfalso; lia ].
Qed.

Lemma year_strict (y1 y2 y3 y4 : N) :
  in_range "0" "9" y1 = true -> in_range "0" "9" y2 = true ->
  in_range "0" "9" y3 = true -> in_range "0" "9" y4 = true ->
  year_text [y1; y2; y3; y4] = true
  /\ Birthday.int [y1; y2; y3; y4]
     = Some (1000 * digit y1 + 100 * digit y2 + 10 * digit y3 + digit y4)%Z.
Proof.
  intros H1 H2 H3 H4.
  destruct (ascii_digit_value _ H2) as [V2 D2].
  destruct (ascii_digit_value _ H3) as [V3 D3].
  destruct (ascii_digit_value _ H4) as [V4 D4].
  destruct (ascii_digit_value _ H1) as [V1 D1].
  split.
  - cbn [year_text]. now rewrite D1, D2, D3, D4.
  - charfacts. unfold digit.
    assert (Hblank : N.eqb y1 32 = false) by (apply N.eqb_neq; lia).
    unfold Birthday.int. cbn [Birthday.lstrip]. rewrite Hblank.
    cbn [Birthday.int_digits]. rewrite V1, V2, V3, V4. f_equal. lia.
Qed.

Lemma strict_reads (v : str) :
  DD_MM_YYYY v = true -> Date.valid (strict_date v) -> reads v (strict_date v).
Proof.
  destruct v as [|d1 [|d2 [|p1 [|m1 [|m2 [|p2 [|y1 [|y2 [|y3 [|y4 [|]]]]]]]]]]];
    try discriminate.
  unfold DD_MM_YYYY. cbn [forallb].
  rewrite !andb_true_iff.
  intros [[(Hd1 & Hd2 & Hm1 & Hm2 & Hy1 & Hy2 & Hy3 & Hy4 & _) Hp1] Hp2].
  charfacts. subst p1 p2.
  intros Hv. pose proof Hv as (_ & Hm & Hd).
  cbn [strict_date Date.year Date.month Date.day] in Hm, Hd.
  pose proof (days_in_month_le
                (1000 * digit y1 + 100 * digit y2 + 10 * digit y3 + digit y4)
                (10 * digit m1 + digit m2)) as Hle.
  assert (Hd1' : in_range "0" "9" d1 = true)
    by (unfold in_range; cbn; apply andb_true_iff; rewrite !N.leb_le; lia).
  assert (Hd2' : in_range "0" "9" d2 = true)
    by (unfold in_range; cbn; apply andb_true_iff; rewrite !N.leb_le; lia).
  assert (Hm1' : in_range "0" "9" m1 = true)
    by (unfold in_range; cbn; apply andb_true_iff; rewrite !N.leb_le; lia).
  assert (Hm2' : in_range "0" "9" m2 = true)
    by (unfold in_range; cbn; apply andb_true_iff; rewrite !N.leb_le; lia).
  assert (Hy1' : in_range "0" "9" y1 = true)
    by (unfold in_range; cbn; apply andb_true_iff; rewrite !N.leb_le; lia).
  assert (Hy2' : in_range "0" "9" y2 = true)
    by (unfold in_range; cbn; apply andb_true_iff; rewrite !N.leb_le; lia).
  assert (Hy3' : in_range "0" "9" y3 = true)
    by (unfold in_range; cbn; apply andb_true_iff; rewrite !N.leb_le; lia).
  assert (Hy4' : in_range "0" "9" y4 = true)
    by (unfold in_range; cbn; apply andb_true_iff; rewrite !N.leb_le; lia).
  destruct (day_strict d1 d2 Hd1' Hd2') as [Td Id]; [lia|].
  destruct (month_strict m1 m2 Hm1' Hm2') as [Tm Im]; [lia|].
  destruct (year_strict y1 y2 y3 y4 Hy1' Hy2' Hy3' Hy4') as [Ty Iy].
  exists [d1; d2], [m1; m2], [y1; y2; y3; y4].
  cbn [strict_date Date.year Date.month Date.day].
  repeat split; trivial; apply Hv.
Qed.

(** ** What the commands raise *)

Section ValueErrors.

Context {S : Type}.

Lemma ove_ret {A} (a : A) : only_value_errors (ret a : M S A).
Proof. intros s e. discriminate. Qed.

Lemma ove_get : only_value_errors (get : M S S).
Proof. intros s e. discriminate. Qed.

Lemma ove_put (s0 : S) : only_value_errors (put s0).
Proof. intros s e. discriminate. Qed.

Lemma ove_raise {A} (msg : str) : only_value_errors (raise (ValueError msg) : M S A).
Proof. intros s e [= <-]. eauto. Qed.

Lemma ove_lift {A} (r : result A) : value_errors r -> only_value_errors (lift r : M S A).
Proof. intros H s. exact H. Qed.

Lemma ove_bind {A B} (m : M S A) (k : A -> M S B) :
  only_value_errors m -> (forall a, only_value_errors (k a)) ->
  only_value_errors (bind m k).
Proof.
  intros Hm Hk s. unfold bind. specialize (Hm s).
  destruct (m s) as [[a|e] s']; simpl in *.
  - apply Hk.
  - intros e' [= <-]. now apply Hm.
Qed.

End ValueErrors.

Lemma ve_phone (v : str) : value_errors (Phone.init v).
Proof. unfold Phone.init. intros e. destruct (Phone.validate v); intros [= <-]. eauto. Qed.

Lemma ve_record (n : str) : value_errors (Rec.init n).
Proof. intros e. destruct n; intros [= <-]. eauto. Qed.

Lemma ve_birthday (v : str) : value_errors (Birthday.init v).
Proof.
  unfold Birthday.init. intros e.
  destruct (Birthday.strptime_dmY v); intros [= <-]. eauto.
Qed.

Lemma ve_date (y m d : Z) : value_errors (Date.new y m d).
Proof.
  unfold Date.new. intros e.
  repeat match goal with
         | |- context [if ?b then _ else _] => destruct b
         end; intros [= <-]; eauto.
Qed.

Lemma ve_list_remove (x : Phone.t) (l : list Phone.t) :
  value_errors (Rec.list_remove x l).
Proof.
  induction l as [|p l IH]; simpl; intros e.
  - intros [= <-]. eauto.
  - destruct (str_eqb _ _); [discriminate|].
    destruct (Rec.list_remove x l) as [l'|e']; [discriminate|].
    intros [= <-]. now apply IH.
Qed.

Lemma ve_days (today : Date.t) (r : Rec.t) :
  value_errors (Rec.days_to_birthday today r).
Proof.
  unfold Rec.days_to_birthday, Date.replace_year. intros e.
  destruct (Rec.birthday r) as [b|]; [|discriminate].
  destruct (Date.new (Date.year today) _ _) as [d|e1] eqn:E1.
  - destruct (Date.lt d today); [|discriminate].
    destruct (Date.new (Date.year today + 1) _ _) as [d'|e2] eqn:E2; [discriminate|].
    intros [= <-]. exact (ve_date _ _ _ _ E2).
  - intros [= <-]. exact (ve_date _ _ _ _ E1).
Qed.

Lemma ve_scan (today : Date.t) (records : list Rec.t) :
  value_errors (AddressBook.scan today records).
Proof.
  induction records as [|r rs IH]; simpl; intros e; [discriminate|].
  destruct (Rec.days_to_birthday today r) as [d|e1] eqn:E1.
  - destruct (AddressBook.scan today rs) as [l|e2]; [discriminate|].
    intros [= <-]. now apply IH.
  - intros [= <-]. exact (ve_days _ _ _ E1).
Qed.

Ltac ove :=
  repeat first
    [ apply ove_ret | apply ove_get | apply ove_put | apply ove_raise
    | apply ove_lift;
      first [ apply ve_phone | apply ve_record | apply ve_birthday
            | apply ve_list_remove | apply ve_scan ]
    | apply ove_bind; [|intros]
    | match goal with
      | |- only_value_errors (match ?x with _ => _ end) => destruct x
      | |- only_value_errors (if ?x then _ else _) => destruct x
      end ].

Lemma ove_add_phone (n : str) : only_value_errors (Rec.add_phone n).
Proof. unfold Rec.add_phone. ove. Qed.

Lemma ove_remove_phone (n : str) : only_value_errors (Rec.remove_phone n).
Proof. unfold Rec.remove_phone. ove. Qed.

Lemma ove_edit_phone (o n : str) : only_value_errors (Rec.edit_phone o n).
Proof.
  unfold Rec.edit_phone. ove.
Qed.

Lemma ove_add_birthday (b : str) : only_value_errors (Rec.add_birthday b).
Proof. unfold Rec.add_birthday. ove. Qed.

Lemma ove_mutate {A} (k : str) (r : Rec.t) (m : M Rec.t A) :
  only_value_errors m -> only_value_errors (Body.mutate k r m).
Proof.
  intros Hm book. unfold Body.mutate. specialize (Hm r).
  now destruct (m r) as [res r'].
Qed.

Lemma ove_add_record (r : Rec.t) : only_value_errors (AddressBook.add_record r).
Proof. unfold AddressBook.add_record. ove. Qed.

Lemma ove_add_contact (args : list str) : only_value_errors (Body.add_contact args).
Proof.
  unfold Body.add_contact, Body.unpack_error. ove;
    apply ove_mutate, ove_add_phone.
Qed.

Lemma ove_change_phone (args : list str) : only_value_errors (Body.change_phone args).
Proof.
  unfold Body.change_phone, Body.unpack_error. ove.
  apply ove_mutate, ove_edit_phone.
Qed.

Lemma ove_show_phone (args : list str) : only_value_errors (Body.show_phone args).
Proof. unfold Body.show_phone, Body.unpack_error. ove. Qed.

Lemma ove_show_all_contacts : only_value_errors Body.show_all_contacts.
Proof. unfold Body.show_all_contacts. ove. Qed.

Lemma ove_cmd_add_birthday (args : list str) :
  only_value_errors (Body.add_birthday args).
Proof.
  unfold Body.add_birthday, Body.unpack_error. ove.
  apply ove_mutate, ove_add_birthday.
Qed.

Lemma ove_show_birthday (args : list str) :
  only_value_errors (Body.show_birthday args).
Proof. unfold Body.show_birthday, Body.unpack_error. ove. Qed.

Lemma ove_birthdays (today : Date.t) (args : list str) :
  only_value_errors (Body.birthdays today args).
Proof.
  unfold Body.birthdays, AddressBook.get_upcoming_birthdays. ove.
Qed.

(** What the decorator makes of a [ValueError]. *)
Lemma input_error_value_error (repr : str -> str) (f : M AddressBook.t str)
      (book book' : AddressBook.t) (e : exn) :
  only_value_errors f -> f book = (Raise e, book') ->
  exists msg, e = ValueError msg
              /\ input_error repr f book = (lit "Error: " ++ msg, book').
Proof.
  intros Hf E. destruct (Hf book e) as [msg ->]; [now rewrite E|].
  exists msg. split; [reflexivity|]. unfold input_error. now rewrite E.
Qed.

(** ** The add command, step by step *)

Lemma setitem_setitem (k : str) (r r' : Rec.t) (book : AddressBook.t) :
  setitem k r' (setitem k r book) = setitem k r' book.
Proof.
  induction book as [|[k0 r0] book IH]; simpl.
  - now rewrite str_eqb_refl.
  - destruct (str_eqb k0 k) eqn:E; simpl; rewrite E; [reflexivity|].
    now rewrite IH.
Qed.

Lemma setitem_id (k : str) (r : Rec.t) (book : AddressBook.t) :
  find k book = Some r -> setitem k r book = book.
Proof.
  induction book as [|[k0 r0] book IH]; simpl; [discriminate|].
  destruct (str_eqb k0 k); [now intros [= ->]|].
  intros H. now rewrite IH.
Qed.

Lemma add_contact_absent (name phone : str) (rest : list str)
      (book : AddressBook.t) :
  name <> [] -> phone <> [] -> find name book = None ->
  Body.add_contact (name :: phone :: rest) book
  = match Phone.init phone with
    | Ok p =>
        (Ok (lit "Contact added."),
         book ++ [(name, Rec.make (Name.make name) [p] None)])
    | Raise e =>
        (Raise e, book ++ [(name, Rec.make (Name.make name) [] None)])
    end.
Proof.
  intros Hn Hp Hf. unfold Body.add_contact, bind at 1. unfold get at 1.
  rewrite Hf. destruct name as [|c name]; [congruence|].
  destruct phone as [|c' phone]; [congruence|].
  unfold bind, lift, Rec.init, Name.init, AddressBook.add_record, bind, get,
    put, ret, Body.truthy, Body.mutate, Rec.add_phone, bind, lift, get, put.
  cbn [fst snd Rec.name Name.value].
  destruct (Phone.init (c' :: phone)) as [p|e]; cbn [fst snd];
    rewrite setitem_setitem, setitem_absent by assumption; reflexivity.
Qed.

Lemma add_contact_present (name phone : str) (rest : list str)
      (book : AddressBook.t) (r : Rec.t) :
  phone <> [] -> find name book = Some r ->
  Body.add_contact (name :: phone :: rest) book
  = match Phone.init phone with
    | Ok p =>
        (Ok (lit "Contact updated."),
         setitem name (Rec.set_phones (Rec.phones r ++ [p]) r) book)
    | Raise e => (Raise e, book)
    end.
Proof.
  intros Hp Hf. unfold Body.add_contact, bind at 1. unfold get at 1.
  rewrite Hf. destruct phone as [|c' phone]; [congruence|].
  unfold bind, ret, Body.truthy, Body.mutate, Rec.add_phone, bind, lift, get, put.
  cbn [fst snd].
  destruct (Phone.init (c' :: phone)) as [p|e]; cbn [fst snd]; [reflexivity|].
  now rewrite setitem_id.
Qed.

Lemma show_phone_present (repr : str -> str) (name : str) (rest : list str)
      (book : AddressBook.t) (r : Rec.t) :
  find name book = Some r ->
  show_phone repr (name :: rest) book
  = (Name.value (Rec.name r) ++ lit ": "
       ++ join (lit ", ") (List.map Phone.value (Rec.phones r)), book).
Proof.
  intros Hf. unfold show_phone, input_error, Body.show_phone, bind, get, ret.
  now rewrite Hf.
Qed.

Lemma validate_nonempty (v : str) : Phone.validate v = true -> v <> [].
Proof. now intros H ->. Qed.

(** ** The numbers of a birthday *)

Lemma digit_value_lt (c v : N) : digit_value c = Some v -> (v < 10)%N.
Proof.
  unfold digit_value. generalize Nd_starts.
  induction l as [|s l IH]; simpl; [discriminate|].
  destruct ((s <=? c) && (c <? s + 10))%N eqn:E; [|exact IH].
  intros [= <-]. apply andb_true_iff in E.
  rewrite N.leb_le, N.ltb_lt in E. lia.
Qed.

Ltac known_digits :=
  repeat match goal with
         | |- context [digit_value (N.pos ?p)] =>
             let v := eval vm_compute in (digit_value (N.pos p)) in
             change (digit_value (N.pos p)) with v
         end.

(** The text of a day is a number from 1 to 31, that of a month a number
    from 1 to 12, that of a year a number from 0 to 9999. *)
Lemma day_number (d : str) :
  day_text d = true ->
  exists n, Birthday.int d = Some n /\ (1 <= n <= 31)%Z.
Proof.
  destruct d as [|a [|b [|c d]]]; try discriminate; cbn [day_text]; intros H.
  - charfacts. enum a; first [ eexists; split; [reflexivity | lia] | exfalso; lia ].
  - repeat (apply orb_true_iff in H; destruct H as [H|H]);
      apply andb_true_iff in H; destruct H as [Ha Hb].
    + charfacts. subst a.
      enum b; first [ eexists; split; [reflexivity | lia] | exfalso; lia ].
    + unfold is_digit in Hb.
      destruct (digit_value b) as [v|] eqn:V; [|discriminate].
      pose proof (digit_value_lt _ _ V). charfacts.
      enum a; try (exfalso; lia);
        unfold Birthday.int; cbn [Birthday.lstrip N.eqb Pos.eqb];
        cbn [Birthday.int_digits]; known_digits; rewrite V;
        eexists; (split; [reflexivity | lia]).
    + charfacts. subst a.
      enum b; first [ eexists; split; [reflexivity | lia] | exfalso; lia ].
    + charfacts. subst a.
      enum b; first [ eexists; split; [reflexivity | lia] | exfalso; lia ].
Qed.

Lemma month_number (m : str) :
  month_text m = true ->
  exists n, Birthday.int m = Some n /\ (1 <= n <= 12)%Z.
Proof.
  destruct m as [|a [|b [|c m]]]; try discriminate; cbn [month_text]; intros H.
  - charfacts. enum a; first [ eexists; split; [reflexivity | lia] | exfalso; lia ].
  - repeat (apply orb_true_iff in H; destruct H as [H|H]);
      apply andb_true_iff in H; destruct H as [Ha Hb];
      charfacts; subst a;
      enum b; first [ eexists; split; [reflexivity | lia] | exfalso; lia ].
Qed.

Lemma year_number (y : str) :
  year_text y = true ->
  exists n, Birthday.int y = Some n /\ (0 <= n <= 9999)%Z.
Proof.
  destruct y as [|a [|b [|c [|d [|e y]]]]]; try discriminate.
  cbn [year_text]. rewrite !andb_true_iff. unfold is_digit.
  destruct (digit_value a) as [va|] eqn:Va; [|intros [[[? _] _] _]; discriminate].
  destruct (digit_value b) as [vb|] eqn:Vb; [|intros [[[_ ?] _] _]; discriminate].
  destruct (digit_value c) as [vc|] eqn:Vc; [|intros [[_ ?] _]; discriminate].
  destruct (digit_value d) as [vd|] eqn:Vd; [|intros [_ ?]; discriminate].
  intros _.
  pose proof (digit_value_lt _ _ Va). pose proof (digit_value_lt _ _ Vb).
  pose proof (digit_value_lt _ _ Vc). pose proof (digit_value_lt _ _ Vd).
  assert (Hblank : N.eqb a 32 = false).
  { apply N.eqb_neq. intros ->. vm_compute in Va. discriminate. }
  unfold Birthday.int. cbn [Birthday.lstrip]. rewrite Hblank.
  cbn [Birthday.int_digits]. rewrite Va, Vb, Vc, Vd.
  eexists. split; [reflexivity | lia].
Qed.

(** * The claims *)

(** C1, as the code runs it: [edit_phone] is not atomic.  On a record whose
    only phone is 1234567890, editing it to 123 (which is not ten digits)
    raises the validation error, and the old number is gone from the list
    afterwards; the change command reports the error and leaves the book
    with the number removed. *)
Theorem edit_phone_loses_old_number :
  Rec.find_phone (lit "1234567890") alice = Some (Phone.make (lit "1234567890"))
  /\ Phone.validate (lit "123") = false
  /\ Rec.edit_phone (lit "1234567890") (lit "123") alice
     = (Raise (ValueError (lit "Invalid phone number format. It must be 10 digits.")),
        alice_no_phone)
  /\ Rec.find_phone (lit "1234567890") alice_no_phone = None
  /\ change_phone repr_plain [lit "Alice"; lit "1234567890"; lit "123"]
       [(lit "Alice", alice)]
     = (lit "Error: Invalid phone number format. It must be 10 digits.",
        [(lit "Alice", alice_no_phone)]).
Proof. repeat split; vm_compute; reflexivity. Qed.

(** C2, as the code runs it: ten digits followed by a newline make a string
    of eleven characters, the last of which is not a digit, and [Phone]
    accepts it and stores it with the newline. *)
Theorem phone_accepts_trailing_newline :
  List.length (lit "1234567890" ++ newline) = 11
  /\ is_digit 10 = false
  /\ Phone.init (lit "1234567890" ++ newline)
     = Ok (Phone.make (lit "1234567890" ++ newline)).
Proof. repeat split; vm_compute; reflexivity. Qed.

(** C3, as the code runs it: for a birthday on the 29th of February,
    [days_to_birthday] raises whenever the year it moves the birthday to is
    not a leap year.  On the first of March 2024 the birthday was yesterday
    and the call raises instead of counting the days to its next
    occurrence; on the first of February 2023 it raises too; on the first of
    February 2024 it returns 28. *)
Theorem days_to_birthday_leap_day_raises :
  Rec.add_birthday (lit "29.02.2000") (Rec.make (Name.make (lit "Bob")) [] None)
  = (Ok tt, bob_leap)
  /\ Rec.days_to_birthday (Date.make 2024 3 1) bob_leap
     = Raise (ValueError (lit "day is out of range for month"))
  /\ Rec.days_to_birthday (Date.make 2023 2 1) bob_leap
     = Raise (ValueError (lit "day is out of range for month"))
  /\ Rec.days_to_birthday (Date.make 2024 2 1) bob_leap = Ok (Some 28%Z).
Proof. repeat split; vm_compute; reflexivity. Qed.

(** C4, as the code runs it: on the first of March 2023, in a book that
    holds Alice, whose birthday is four days away, and Bob, born on a 29th
    of February, [get_upcoming_birthdays] raises instead of returning the
    list with Alice, and the birthdays command reports the error. *)
Theorem upcoming_birthdays_leap_day_raises :
  let book := [(lit "Alice", alice_march); (lit "Bob", bob_leap)] in
  let today := Date.make 2023 3 1 in
  Rec.days_to_birthday today alice_march = Ok (Some 4%Z)
  /\ AddressBook.get_upcoming_birthdays today book
     = Raise (ValueError (lit "day is out of range for month"))
  /\ AddressBook.get_upcoming_birthdays today [(lit "Alice", alice_march)]
     = Ok [AddressBook.make_upcoming (lit "Alice") (Date.make 1990 3 5)]
  /\ birthdays repr_plain today [] book
     = (lit "Error: day is out of range for month", book).
Proof. repeat split; vm_compute; reflexivity. Qed.

(** C5, counterexample: the string 1.2.2000 is not of the format
    DD.MM.YYYY, and [Birthday] accepts it as the first of February 2000. *)
Lemma birthday_accepts_short_day_month :
  DD_MM_YYYY (lit "1.2.2000") = false
  /\ Birthday.init (lit "1.2.2000") = Ok (Birthday.make (Date.make 2000 2 1)).
Proof. split; vm_compute; reflexivity. Qed.

(** C5, amended: [Birthday] accepts a string exactly when it is a day, a dot,
    a month, a dot and a year (the day and the month in one or two
    characters, the year in four digits) that name a calendar date, and then
    stores that date; every other string is refused with the validation
    error; every string of the strict format DD.MM.YYYY that names a
    calendar date is accepted with that date; and the texts of a day, a
    month and a year always are numbers, from 1 to 31, from 1 to 12 and from
    0 to 9999. *)
Theorem birthday_init_reads (v : str) :
  (forall dt, Birthday.init v = Ok (Birthday.make dt) <-> reads v dt)
  /\ ((forall dt, ~ reads v dt) ->
      Birthday.init v = Raise (ValueError (lit "Invalid date format. Use DD.MM.YYYY")))
  /\ (DD_MM_YYYY v = true -> Date.valid (strict_date v) ->
      Birthday.init v = Ok (Birthday.make (strict_date v)))
  /\ (forall d m y,
         day_text d = true -> month_text m = true -> year_text y = true ->
         exists dn mn yn,
           Birthday.int d = Some dn /\ Birthday.int m = Some mn
           /\ Birthday.int y = Some yn
           /\ (1 <= dn <= 31 /\ 1 <= mn <= 12 /\ 0 <= yn <= 9999)%Z).
Proof.
  assert (Hiff : forall dt, Birthday.init v = Ok (Birthday.make dt) <-> reads v dt).
  { intros dt. rewrite <- strptime_reads. unfold Birthday.init.
    destruct (Birthday.strptime_dmY v); split; congruence. }
  split; [exact Hiff|]. split; [|split].
  - intros Hno. unfold Birthday.init.
    destruct (Birthday.strptime_dmY v) as [dt|] eqn:E; [|reflexivity].
    apply strptime_reads in E. now elim (Hno dt).
  - intros Hs Hv. apply Hiff. now apply strict_reads.
  - intros d m y Hd Hm Hy.
    destruct (day_number d Hd) as (dn & Id & Rd).
    destruct (month_number m Hm) as (mn & Im & Rm).
    destruct (year_number y Hy) as (yn & Iy & Ry).
    exists dn, mn, yn. tauto.
Qed.

Lemma birthday_init_reads_witness :
  DD_MM_YYYY (lit "15.08.1990") = true
  /\ Date.valid (strict_date (lit "15.08.1990"))
  /\ Birthday.init (lit "15.08.1990") = Ok (Birthday.make (Date.make 1990 8 15)).
Proof.
  assert (Hv : Date.valid (strict_date (lit "15.08.1990")))
    by (unfold Date.valid; vm_compute; intuition discriminate).
  split; [reflexivity|]. split; [exact Hv|].
  exact (proj1 (proj2 (proj2 (birthday_init_reads (lit "15.08.1990")))) eq_refl Hv).
Defined.

(** C6: for a name that is not empty and a phone that passes validation,
    the add command answers "Contact added." when the name is not a key of
    the book and "Contact updated." when it is; in both cases the record
    under the name then holds the phones it held before (none for a new
    record) followed by the new one, the other records are untouched, and
    the phone command shows the name of the record, a colon, and the phones
    separated by commas.  The scenario of the specification runs as
    stated. *)
Theorem add_contact_then_show_phone (repr : str -> str) :
  (forall (name phone : str) (rest : list str) (book : AddressBook.t),
      name <> [] -> Phone.validate phone = true ->
      exists r' book',
        add_contact repr (name :: phone :: rest) book
        = (match find name book with
           | None => lit "Contact added."
           | Some _ => lit "Contact updated."
           end, book')
        /\ find name book' = Some r'
        /\ Rec.phones r'
           = match find name book with
             | None => []
             | Some r => Rec.phones r
             end ++ [Phone.make phone]
        /\ (forall k, k <> name -> find k book' = find k book)
        /\ show_phone repr [name] book'
           = (Name.value (Rec.name r') ++ lit ": "
                ++ join (lit ", ") (List.map Phone.value (Rec.phones r')),
              book'))
  /\ (let (m1, b1) := add_contact repr [lit "Alice"; lit "1234567890"] [] in
      let (m2, b2) := add_contact repr [lit "Alice"; lit "0987654321"] b1 in
      m1 = lit "Contact added." /\ m2 = lit "Contact updated."
      /\ fst (show_phone repr [lit "Alice"] b2)
         = lit "Alice: 1234567890, 0987654321").
Proof.
  split; [|vm_compute; auto].
  intros name phone rest book Hn Hv.
  pose proof (validate_nonempty phone Hv) as Hp.
  unfold add_contact, input_error.
  destruct (find name book) as [r|] eqn:Hf.
  - rewrite (add_contact_present name phone rest book r Hp Hf).
    rewrite (init_accepts phone Hv).
    exists (Rec.set_phones (Rec.phones r ++ [Phone.make phone]) r),
      (setitem name (Rec.set_phones (Rec.phones r ++ [Phone.make phone]) r) book).
    split; [reflexivity|]. split; [apply find_setitem_same|].
    split; [reflexivity|]. split; [intros k Hk; now apply find_setitem_other|].
    apply show_phone_present, find_setitem_same.
  - rewrite (add_contact_absent name phone rest book Hn Hp Hf).
    rewrite (init_accepts phone Hv).
    rewrite <- (setitem_absent name _ book Hf).
    eexists; eexists.
    split; [reflexivity|]. split; [apply find_setitem_same|].
    split; [reflexivity|]. split; [intros k Hk; now apply find_setitem_other|].
    apply show_phone_present, find_setitem_same.
Qed.

Lemma add_contact_then_show_phone_witness :
  lit "Alice" <> [] /\ Phone.validate (lit "0987654321") = true
  /\ exists r' book',
      add_contact repr_plain [lit "Alice"; lit "0987654321"] [(lit "Alice", alice)]
      = (lit "Contact updated.", book')
      /\ find (lit "Alice") book' = Some r'
      /\ Rec.phones r' = Rec.phones alice ++ [Phone.make (lit "0987654321")]
      /\ (forall k, k <> lit "Alice" -> find k book' = find k [(lit "Alice", alice)])
      /\ show_phone repr_plain [lit "Alice"] book'
         = (Name.value (Rec.name r') ++ lit ": "
              ++ join (lit ", ") (List.map Phone.value (Rec.phones r')),
            book').
Proof.
  assert (Hn : lit "Alice" <> []) by discriminate.
  split; [exact Hn|]. split; [reflexivity|].
  exact (proj1 (add_contact_then_show_phone repr_plain)
           (lit "Alice") (lit "0987654321") [] [(lit "Alice", alice)] Hn eq_refl).
Defined.

(** C7: whatever a command raises is a [ValueError], and the decorator
    turns it into the string "Error: " followed by its message, in the book
    as the command left it, for each of the seven commands; the change
    command on a name that is not in the book answers "Error: Contact not
    found." and leaves the book as it was. *)
Theorem commands_report_errors (repr : str -> str) (today : Date.t)
        (args : list str) (book : AddressBook.t) :
  (forall f,
      In f [Body.add_contact args; Body.change_phone args; Body.show_phone args;
            Body.show_all_contacts; Body.add_birthday args;
            Body.show_birthday args; Body.birthdays today args] ->
      forall e book',
        f book = (Raise e, book') ->
        exists msg, e = ValueError msg
                    /\ input_error repr f book = (lit "Error: " ++ msg, book'))
  /\ (forall name old new rest,
         args = name :: old :: new :: rest -> find name book = None ->
         change_phone repr args book = (lit "Error: Contact not found.", book)).
Proof.
  split.
  - intros f Hin e book' E.
    apply input_error_value_error with (e := e); [|exact E].
    simpl in Hin.
    repeat match goal with
           | H : _ \/ _ |- _ => destruct H as [H|H]
           | H : False |- _ => destruct H
           end; subst f.
    + apply ove_add_contact.
    + apply ove_change_phone.
    + apply ove_show_phone.
    + apply ove_show_all_contacts.
    + apply ove_cmd_add_birthday.
    + apply ove_show_birthday.
    + apply ove_birthdays.
  - intros name old new rest -> Hf.
    unfold change_phone, input_error, Body.change_phone, bind, get, raise.
    now rewrite Hf.
Qed.

Lemma commands_report_errors_witness :
  find (lit "Bob") [] = None
  /\ change_phone repr_plain [lit "Bob"; lit "1111111111"; lit "2222222222"] []
     = (lit "Error: Contact not found.", []).
Proof.
  split; [reflexivity|].
  exact (proj2 (commands_report_errors repr_plain (Date.make 2026 11 3)
                  [lit "Bob"; lit "1111111111"; lit "2222222222"] [])
           (lit "Bob") (lit "1111111111") (lit "2222222222") [] eq_refl eq_refl).
Defined.

(** C8: in a book with distinct keys, [delete] raises the [KeyError]
    "Contact not found." exactly when the name is not a key, and the book is
    then unchanged; when the name is a key it returns, the name is no longer
    a key, every other name is found as before, and the remaining items keep
    their order. *)
Theorem delete_spec (name : str) (book : AddressBook.t) :
  wf book ->
  (find name book = None <->
   exists e book', AddressBook.delete name book = (Raise e, book'))
  /\ (find name book = None ->
      AddressBook.delete name book
      = (Raise (KeyError (lit "Contact not found.")), book))
  /\ (forall r, find name book = Some r ->
      AddressBook.delete name book = (Ok tt, delitem name book)
      /\ find name (delitem name book) = None
      /\ (forall k, k <> name -> find k (delitem name book) = find k book)
      /\ delitem name book
         = List.filter (fun kr => negb (str_eqb (fst kr) name)) book
      /\ wf (delitem name book)).
Proof.
  intros Hwf. unfold AddressBook.delete, bind, get, put, raise.
  destruct (find name book) as [r|] eqn:Hf.
  - split; [split; [discriminate | intros (e & b & H); discriminate]|].
    split; [discriminate|].
    intros r' _. split; [reflexivity|].
    split; [now apply delitem_same|].
    split; [intros k Hk; now apply delitem_other|].
    split; [now apply delitem_filter | now apply delitem_wf].
  - split; [split; [eauto | reflexivity]|].
    split; [reflexivity | discriminate].
Qed.

Lemma delete_spec_witness :
  wf [(lit "Alice", alice); (lit "Bob", bob_leap)]
  /\ AddressBook.delete (lit "Alice") [(lit "Alice", alice); (lit "Bob", bob_leap)]
     = (Ok tt, [(lit "Bob", bob_leap)])
  /\ AddressBook.delete (lit "Carol") [(lit "Alice", alice); (lit "Bob", bob_leap)]
     = (Raise (KeyError (lit "Contact not found.")),
        [(lit "Alice", alice); (lit "Bob", bob_leap)]).
Proof.
  assert (Hwf : wf [(lit "Alice", alice); (lit "Bob", bob_leap)]).
  { unfold wf. repeat constructor; simpl; intuition discriminate. }
  split; [exact Hwf|]. split.
  - exact (proj1 (proj2 (proj2 (delete_spec (lit "Alice") _ Hwf)) alice eq_refl)).
  - exact (proj1 (proj2 (delete_spec (lit "Carol") _ Hwf)) eq_refl).
Defined.

(** C9, counterexample: with an empty phone, which is not a valid phone
    number, the add command on a new name answers "Contact added." and not
    an error. *)
Lemma add_contact_empty_phone_no_error :
  find (lit "Bob") [] = None
  /\ Phone.validate [] = false
  /\ add_contact repr_plain [lit "Bob"; []] []
     = (lit "Contact added.",
        [(lit "Bob", Rec.make (Name.make (lit "Bob")) [] None)]).
Proof. repeat split; vm_compute; reflexivity. Qed.

(** C9, amended: for a name that is not empty and is not a key of the book,
    and a phone that is not empty and fails validation, the add command
    answers "Error: Invalid phone number format. It must be 10 digits.", and
    the book has nevertheless gained, at its end, a record for the name with
    no phone and no birthday, which [find] returns. *)
Theorem add_contact_not_atomic (repr : str -> str) (name phone : str)
        (rest : list str) (book : AddressBook.t) :
  name <> [] -> phone <> [] ->
  find name book = None -> Phone.validate phone = false ->
  add_contact repr (name :: phone :: rest) book
  = (lit "Error: " ++ lit "Invalid phone number format. It must be 10 digits.",
     book ++ [(name, Rec.make (Name.make name) [] None)])
  /\ find name (book ++ [(name, Rec.make (Name.make name) [] None)])
     = Some (Rec.make (Name.make name) [] None).
Proof.
  intros Hn Hp Hf Hv. unfold add_contact, input_error.
  rewrite (add_contact_absent name phone rest book Hn Hp Hf).
  rewrite (init_refuses phone Hv). split; [reflexivity|].
  rewrite <- (setitem_absent name _ book Hf). apply find_setitem_same.
Qed.

Lemma add_contact_not_atomic_witness :
  lit "Bob" <> [] /\ lit "12345" <> []
  /\ find (lit "Bob") [(lit "Alice", alice)] = None
  /\ Phone.validate (lit "12345") = false
  /\ add_contact repr_plain [lit "Bob"; lit "12345"] [(lit "Alice", alice)]
     = (lit "Error: Invalid phone number format. It must be 10 digits.",
        [(lit "Alice", alice);
         (lit "Bob", Rec.make (Name.make (lit "Bob")) [] None)]).
Proof.
  assert (Hn : lit "Bob" <> []) by discriminate.
  assert (Hp : lit "12345" <> []) by discriminate.
  split; [exact Hn|]. split; [exact Hp|].
  split; [reflexivity|]. split; [reflexivity|].
  exact (proj1 (add_contact_not_atomic repr_plain (lit "Bob") (lit "12345") []
                  [(lit "Alice", alice)] Hn Hp eq_refl eq_refl)).
Defined.

(** C10: when the phone list of a record holds the number p, [remove_phone]
    takes out its first occurrence and nothing else, so that later
    occurrences stay where they are; and [edit_phone] to a number that
    passes validation takes out the first occurrence of the old number and
    puts the new one at the end of the list.  The record afterwards is
    written out field by field: the name and the birthday it had, and the
    phone list [before ++ after], with the new number behind it after an
    edit. *)
Theorem first_occurrence_removed (r : Rec.t) (p : str) :
  In (Phone.make p) (Rec.phones r) ->
  exists before after,
    Rec.phones r = before ++ Phone.make p :: after
    /\ (forall q, In q before -> Phone.value q <> p)
    /\ Rec.remove_phone p r
       = (Ok tt, Rec.make (Rec.name r) (before ++ after) (Rec.birthday r))
    /\ Rec.phones (snd (Rec.remove_phone p r)) = before ++ after
    /\ (forall new, Phone.validate new = true ->
        Rec.edit_phone p new r
        = (Ok tt,
           Rec.make (Rec.name r) (before ++ after ++ [Phone.make new])
                    (Rec.birthday r))
        /\ Rec.phones (snd (Rec.edit_phone p new r))
           = before ++ after ++ [Phone.make new]).
Proof.
  intros Hin. destruct (first_occurrence p _ Hin) as (before & after & Hl & Hfirst).
  exists before, after. split; [exact Hl|]. split; [exact Hfirst|].
  pose proof (remove_phone_first r p before after Hl Hfirst) as Hrm.
  unfold Rec.set_phones in Hrm.
  split; [exact Hrm|]. split; [now rewrite Hrm|].
  intros new Hv.
  pose proof (edit_phone_valid r p new before after Hl Hfirst Hv) as Hed.
  unfold Rec.set_phones in Hed.
  split; [exact Hed | now rewrite Hed].
Qed.

Lemma first_occurrence_removed_witness :
  In (Phone.make (lit "1111111111")) (Rec.phones twice)
  /\ (exists before after,
        Rec.phones twice = before ++ Phone.make (lit "1111111111") :: after
        /\ (forall q, In q before -> Phone.value q <> lit "1111111111")
        /\ Rec.remove_phone (lit "1111111111") twice
           = (Ok tt, Rec.make (Rec.name twice) (before ++ after) (Rec.birthday twice))
        /\ Rec.phones (snd (Rec.remove_phone (lit "1111111111") twice))
           = before ++ after
        /\ (forall new, Phone.validate new = true ->
            Rec.edit_phone (lit "1111111111") new twice
            = (Ok tt,
               Rec.make (Rec.name twice) (before ++ after ++ [Phone.make new])
                        (Rec.birthday twice))
            /\ Rec.phones (snd (Rec.edit_phone (lit "1111111111") new twice))
               = before ++ after ++ [Phone.make new]))
  /\ Rec.remove_phone (lit "1111111111") twice
     = (Ok tt,
        Rec.make (Name.make (lit "Alice"))
                 [Phone.make (lit "2222222222"); Phone.make (lit "3333333333");
                  Phone.make (lit "1111111111")]
                 None)
  /\ Rec.edit_phone (lit "1111111111") (lit "4444444444") twice
     = (Ok tt,
        Rec.make (Name.make (lit "Alice"))
                 [Phone.make (lit "2222222222"); Phone.make (lit "3333333333");
                  Phone.make (lit "1111111111"); Phone.make (lit "4444444444")]
                 None).
Proof.
  assert (Hin : In (Phone.make (lit "1111111111")) (Rec.phones twice))
    by (right; left; reflexivity).
  split; [exact Hin|]. split.
  - exact (first_occurrence_removed twice (lit "1111111111") Hin).
  - split; reflexivity.
Defined.

(** * Further properties of the same functions *)

(** X1: [Phone] accepts exactly ten digits, with or without one newline
    after them, stores what it was given, and refuses everything else with the
    validation error. *)
Theorem phone_init_spec (v : str) :
  (Phone.init v = Ok (Phone.make v)
   <-> exists ds, List.length ds = 10 /\ forallb is_digit ds = true
                  /\ (v = ds \/ v = ds ++ newline))
  /\ (Phone.init v = Ok (Phone.make v)
      \/ Phone.init v
         = Raise (ValueError (lit "Invalid phone number format. It must be 10 digits."))).
Proof.
  rewrite <- validate_spec. unfold Phone.init.
  destruct (Phone.validate v); split; auto; split; congruence.
Qed.

(** X2: [edit_phone] from a number of the list to a number that fails
    validation raises the validation error after the first occurrence of
    the old number has been taken out: the record it leaves has the name
    and the birthday it had, and the phone list [before ++ after]. *)
Theorem edit_phone_on_invalid_number (r : Rec.t) (old new : str) :
  In (Phone.make old) (Rec.phones r) -> Phone.validate new = false ->
  exists before after,
    Rec.phones r = before ++ Phone.make old :: after
    /\ (forall q, In q before -> Phone.value q <> old)
    /\ Rec.edit_phone old new r
       = (Raise (ValueError (lit "Invalid phone number format. It must be 10 digits.")),
          Rec.make (Rec.name r) (before ++ after) (Rec.birthday r))
    /\ Rec.phones (snd (Rec.edit_phone old new r)) = before ++ after.
Proof.
  intros Hin Hv. destruct (first_occurrence old _ Hin) as (before & after & Hl & Hfirst).
  exists before, after. split; [exact Hl|]. split; [exact Hfirst|].
  pose proof (edit_phone_invalid r old new before after Hl Hfirst Hv) as Hed.
  unfold Rec.set_phones in Hed.
  split; [exact Hed | now rewrite Hed].
Qed.

Lemma edit_phone_on_invalid_number_witness :
  In (Phone.make (lit "1111111111")) (Rec.phones twice)
  /\ Phone.validate (lit "12") = false
  /\ exists before after,
      Rec.phones twice = before ++ Phone.make (lit "1111111111") :: after
      /\ (forall q, In q before -> Phone.value q <> lit "1111111111")
      /\ Rec.edit_phone (lit "1111111111") (lit "12") twice
         = (Raise (ValueError (lit "Invalid phone number format. It must be 10 digits.")),
            Rec.make (Rec.name twice) (before ++ after) (Rec.birthday twice))
      /\ Rec.phones (snd (Rec.edit_phone (lit "1111111111") (lit "12") twice))
         = before ++ after.
Proof.
  assert (Hin : In (Phone.make (lit "1111111111")) (Rec.phones twice))
    by (right; left; reflexivity).
  split; [exact Hin|]. split; [reflexivity|].
  exact (edit_phone_on_invalid_number twice (lit "1111111111") (lit "12") Hin eq_refl).
Defined.

(** X3: a number that is not in the list: [remove_phone] and [edit_phone] raise
    "Phone number not found." and leave the record as it was. *)
Theorem phone_not_found (r : Rec.t) (p new : str) :
  (forall q, In q (Rec.phones r) -> Phone.value q <> p) ->
  Rec.remove_phone p r = (Raise (ValueError (lit "Phone number not found.")), r)
  /\ Rec.edit_phone p new r = (Raise (ValueError (lit "Phone number not found.")), r).
Proof.
  intros H. split; [now apply remove_phone_absent | now apply edit_phone_absent].
Qed.

Lemma phone_not_found_witness :
  (forall q, In q (Rec.phones alice) -> Phone.value q <> lit "5555555555")
  /\ Rec.remove_phone (lit "5555555555") alice
     = (Raise (ValueError (lit "Phone number not found.")), alice)
  /\ Rec.edit_phone (lit "5555555555") (lit "6666666666") alice
     = (Raise (ValueError (lit "Phone number not found.")), alice).
Proof.
  assert (H : forall q, In q (Rec.phones alice) -> Phone.value q <> lit "5555555555")
    by (intros q [<-|[]]; discriminate).
  split; [exact H|].
  exact (phone_not_found alice (lit "5555555555") (lit "6666666666") H).
Defined.

(** X4: for a birthday other than the 29th of February and a day before
    the last year of the calendar, [days_to_birthday] returns the number of days
    from today to the birthday of this year, or to the birthday of next year
    when this year's is strictly before today; the number is not negative
    and that date is not before today. *)
Theorem days_to_birthday_next_occurrence (today : Date.t) (r : Rec.t)
        (b : Birthday.t) :
  Date.valid today -> Rec.birthday r = Some b -> Date.valid (Birthday.value b) ->
  ~ (Date.month (Birthday.value b) = 2 /\ Date.day (Birthday.value b) = 29)%Z ->
  (Date.year today < Date.MAXYEAR)%Z ->
  let next :=
    if Date.lt (birthday_in (Date.year today) b) today
    then birthday_in (Date.year today + 1) b
    else birthday_in (Date.year today) b in
  Rec.days_to_birthday today r
  = Ok (Some (Date.toordinal next - Date.toordinal today)%Z)
  /\ (0 <= Date.toordinal next - Date.toordinal today)%Z
  /\ Date.lt next today = false.
Proof.
  intros Ht Hb Hv Hleap Hy.
  assert (Hty : (Date.MINYEAR <= Date.year today <= Date.MAXYEAR)%Z) by apply Ht.
  apply days_to_next; trivial.
  - apply valid_any_year; trivial.
  - intros _. apply valid_any_year; trivial. unfold Date.MINYEAR in *. lia.
Qed.

Lemma days_to_birthday_next_occurrence_witness :
  Rec.days_to_birthday (Date.make 2026 11 3) alice_march = Ok (Some 122%Z)
  /\ Rec.days_to_birthday (Date.make 2026 3 4) alice_march = Ok (Some 1%Z).
Proof.
  assert (V1 : Date.valid (Date.make 2026 11 3))
    by (unfold Date.valid; vm_compute; intuition discriminate).
  assert (V2 : Date.valid (Date.make 2026 3 4))
    by (unfold Date.valid; vm_compute; intuition discriminate).
  assert (Vb : Date.valid (Date.make 1990 3 5))
    by (unfold Date.valid; vm_compute; intuition discriminate).
  assert (Hl : ~ (3 = 2 /\ 5 = 29)%Z) by (intros [H _]; discriminate).
  split.
  - exact (proj1 (days_to_birthday_next_occurrence (Date.make 2026 11 3)
                    alice_march (Birthday.make (Date.make 1990 3 5))
                    V1 eq_refl Vb Hl eq_refl)).
  - exact (proj1 (days_to_birthday_next_occurrence (Date.make 2026 3 4)
                    alice_march (Birthday.make (Date.make 1990 3 5))
                    V2 eq_refl Vb Hl eq_refl)).
Defined.

(** X5: without a birthday [days_to_birthday] returns nothing; a birthday whose
    month and day are today's gives 0; a birthday whose month and day are
    tomorrow's gives 1, unless tomorrow is past the last year of the
    calendar. *)
Theorem days_to_birthday_near (today : Date.t) (r : Rec.t) :
  Date.valid today ->
  (Rec.birthday r = None -> Rec.days_to_birthday today r = Ok None)
  /\ (forall b, Rec.birthday r = Some b ->
      Date.month (Birthday.value b) = Date.month today ->
      Date.day (Birthday.value b) = Date.day today ->
      Rec.days_to_birthday today r = Ok (Some 0%Z))
  /\ (forall b, Rec.birthday r = Some b ->
      (Date.year (tomorrow today) <= Date.MAXYEAR)%Z ->
      Date.month (Birthday.value b) = Date.month (tomorrow today) ->
      Date.day (Birthday.value b) = Date.day (tomorrow today) ->
      Rec.days_to_birthday today r = Ok (Some 1%Z)).
Proof.
  intros Ht. split; [apply days_no_birthday|]. split.
  - intros b. now apply days_birthday_today.
  - intros b. now apply days_birthday_tomorrow.
Qed.

Lemma days_to_birthday_near_witness :
  Date.valid (Date.make 2024 2 28)
  /\ tomorrow (Date.make 2024 2 28) = Date.make 2024 2 29
  /\ Rec.days_to_birthday (Date.make 2024 2 28) bob_leap = Ok (Some 1%Z).
Proof.
  assert (V : Date.valid (Date.make 2024 2 28))
    by (unfold Date.valid; vm_compute; intuition discriminate).
  split; [exact V|]. split; [reflexivity|].
  refine (proj2 (proj2 (days_to_birthday_near (Date.make 2024 2 28) bob_leap V))
            leap_day eq_refl _ eq_refl eq_refl).
  vm_compute. discriminate.
Defined.

(** X6: when the count of days returns for every record, the list of upcoming
    birthdays is made, in the order of the book, of the name and the date
    of birth of the records whose count is between 0 and 7, both
    included. *)
Theorem upcoming_birthdays_in_order (today : Date.t) (book : AddressBook.t) :
  (forall r, In r (List.map snd book) ->
             exists d, Rec.days_to_birthday today r = Ok d) ->
  AddressBook.get_upcoming_birthdays today book
  = Ok (List.flat_map (upcoming_of today) (List.map snd book))
  /\ forall u,
      In u (List.flat_map (upcoming_of today) (List.map snd book))
      <-> exists r b d,
          In r (List.map snd book) /\ Rec.birthday r = Some b
          /\ Rec.days_to_birthday today r = Ok (Some d)
          /\ (0 <= d <= 7)%Z
          /\ u = AddressBook.make_upcoming (Name.value (Rec.name r)) (Birthday.value b).
Proof.
  intros Hall. split; [now apply scan_flat_map|].
  intros u. rewrite in_flat_map. split.
  - intros (r & Hin & Hu). unfold upcoming_of in Hu.
    destruct (Rec.days_to_birthday today r) as [[d|]|] eqn:E; try destruct Hu.
    destruct (Rec.birthday r) as [b|] eqn:Hb; try destruct Hu.
    destruct ((0 <=? d) && (d <=? 7))%Z eqn:Hd; [|destruct Hu].
    destruct Hu as [<-|[]]. exists r, b, d.
    apply andb_true_iff in Hd. rewrite !Z.leb_le in Hd. tauto.
  - intros (r & b & d & Hin & Hb & E & Hd & ->). exists r. split; [exact Hin|].
    unfold upcoming_of. rewrite E, Hb.
    replace ((0 <=? d) && (d <=? 7))%Z with true
      by (symmetry; apply andb_true_iff; rewrite !Z.leb_le; lia).
    now left.
Qed.

Lemma upcoming_birthdays_in_order_witness :
  let book := [(lit "Zoe", Rec.make (Name.make (lit "Zoe")) []
                             (Some (Birthday.make (Date.make 1985 3 9))));
               (lit "Alice", alice_march);
               (lit "Yan", Rec.make (Name.make (lit "Yan")) []
                             (Some (Birthday.make (Date.make 1970 3 8))));
               (lit "Dan", Rec.make (Name.make (lit "Dan")) []
                             (Some (Birthday.make (Date.make 2001 3 1))))] in
  AddressBook.get_upcoming_birthdays (Date.make 2026 3 1) book
  = Ok [AddressBook.make_upcoming (lit "Alice") (Date.make 1990 3 5);
        AddressBook.make_upcoming (lit "Yan") (Date.make 1970 3 8);
        AddressBook.make_upcoming (lit "Dan") (Date.make 2001 3 1)].
Proof.
  refine (proj1 (upcoming_birthdays_in_order (Date.make 2026 3 1) _ _)).
  intros r Hin. simpl in Hin.
  repeat destruct Hin as [<-|Hin]; try destruct Hin; eexists; vm_compute; reflexivity.
Defined.

(** X7: the other methods of a record that can raise leave the record as it
    was when they do: [add_phone], [remove_phone] and [add_birthday]. *)
Theorem other_methods_keep_record (r r' : Rec.t) (v : str) (e : exn) :
  (Rec.add_phone v r = (Raise e, r') -> r' = r)
  /\ (Rec.remove_phone v r = (Raise e, r') -> r' = r)
  /\ (Rec.add_birthday v r = (Raise e, r') -> r' = r).
Proof.
  repeat split.
  - unfold Rec.add_phone, bind, lift, get, put.
    destruct (Phone.init v); [discriminate | now intros [= _ <-]].
  - unfold Rec.remove_phone, bind, lift, get, put, raise.
    destruct (Rec.find_phone v r); [|now intros [= _ <-]].
    destruct (Rec.list_remove _ _); [discriminate | now intros [= _ <-]].
  - unfold Rec.add_birthday, bind, lift, get, put.
    destruct (Birthday.init v); [discriminate | now intros [= _ <-]].
Qed.

(** * The rest of the program *)

(** ** What the methods do to a record *)

Lemma rec_step_refl (args : list str) (r : Rec.t) : rec_step args r r.
Proof. repeat split; auto. Qed.

Lemma rec_step_incl (args args' : list str) (r r' : Rec.t) :
  incl args args' -> rec_step args r r' -> rec_step args' r r'.
Proof.
  intros Hi (Hn & Hp & Hb). repeat split; trivial.
  intros p Hin. destruct (Hp p Hin) as [?|[? ?]]; auto.
Qed.

Lemma rec_step_trans (args : list str) (r1 r2 r3 : Rec.t) :
  rec_step args r1 r2 -> rec_step args r2 r3 -> rec_step args r1 r3.
Proof.
  intros (Hn & Hp & Hb) (Hn' & Hp' & Hb'). repeat split.
  - congruence.
  - intros p Hin. destruct (Hp' p Hin) as [?|?]; auto.
  - intros b E. destruct (Hb' b E) as [?|?]; auto.
Qed.

Lemma list_remove_incl (x : Phone.t) (l l' : list Phone.t) :
  Rec.list_remove x l = Ok l' -> incl l' l.
Proof.
  revert l'; induction l as [|p l IH]; simpl; intros l'; [discriminate|].
  destruct (str_eqb _ _).
  - intros [= <-]. now apply incl_tl, incl_refl.
  - destruct (Rec.list_remove x l) as [l''|]; [|discriminate].
    intros [= <-]. apply incl_cons; [now left|]. now apply incl_tl, IH.
Qed.

Lemma birthday_init_valid (v : str) (b : Birthday.t) :
  Birthday.init v = Ok b -> Date.valid (Birthday.value b).
Proof.
  unfold Birthday.init.
  destruct (Birthday.strptime_dmY v) as [dt|] eqn:E; [|discriminate].
  intros [= <-]. apply strptime_reads in E.
  destruct E as (_ & _ & _ & _ & _ & _ & _ & _ & _ & _ & Hv). exact Hv.
Qed.

Lemma add_phone_step (n : str) (r r' : Rec.t) (res : result unit) :
  Rec.add_phone n r = (res, r') -> rec_step [n] r r'.
Proof.
  unfold Rec.add_phone, bind, lift, get, put, Phone.init.
  destruct (Phone.validate n) eqn:Hv.
  - intros [= _ <-]. unfold rec_step. simpl.
    split; [reflexivity|]. split; [|auto].
    intros p Hin. apply in_app_or in Hin.
    destruct Hin as [Hin|[<-|[]]]; [now left|]. right. simpl. auto.
  - intros [= _ <-]. apply rec_step_refl.
Qed.

Lemma remove_phone_step (n : str) (r r' : Rec.t) (res : result unit) :
  Rec.remove_phone n r = (res, r') -> rec_step [] r r'.
Proof.
  unfold Rec.remove_phone, bind, lift, get, put, raise.
  destruct (Rec.find_phone n r); [|intros [= _ <-]; apply rec_step_refl].
  destruct (Rec.list_remove _ _) as [l|] eqn:E;
    [|intros [= _ <-]; apply rec_step_refl].
  intros [= _ <-]. unfold rec_step. simpl.
  split; [reflexivity|]. split; [|auto].
  intros p Hin. left. exact (list_remove_incl _ _ _ E p Hin).
Qed.

Lemma edit_phone_step (o n : str) (r r' : Rec.t) (res : result unit) :
  Rec.edit_phone o n r = (res, r') -> rec_step [n] r r'.
Proof.
  unfold Rec.edit_phone, bind at 1. unfold get at 1.
  destruct (Rec.find_phone o r); [|intros [= _ <-]; apply rec_step_refl].
  unfold bind.
  destruct (Rec.remove_phone o r) as [[[]|e] r1] eqn:E1.
  - intros E2. apply rec_step_trans with r1.
    + apply rec_step_incl with (args := []); [intros ? []|].
      exact (remove_phone_step _ _ _ _ E1).
    + exact (add_phone_step _ _ _ _ E2).
  - intros [= _ <-]. apply rec_step_incl with (args := []); [intros ? []|].
    exact (remove_phone_step _ _ _ _ E1).
Qed.

Lemma add_birthday_step (v : str) (r r' : Rec.t) (res : result unit) :
  Rec.add_birthday v r = (res, r') -> rec_step [] r r'.
Proof.
  unfold Rec.add_birthday, bind, lift, get, put.
  destruct (Birthday.init v) as [b|] eqn:E;
    [|intros [= _ <-]; apply rec_step_refl].
  intros [= _ <-]. unfold rec_step. simpl.
  split; [reflexivity|]. split; [auto|].
  intros b' [= <-]. right. exact (birthday_init_valid _ _ E).
Qed.

(** ** What the commands do to the book *)

Lemma mutate_effect {A} (args : list str) (k : str) (record : Rec.t)
      (m : M Rec.t A) (book book' : AddressBook.t) (res : result A) :
  find k book = Some record ->
  (forall res r', m record = (res, r') -> rec_step args record r') ->
  Body.mutate k record m book = (res, book') -> effect args book book'.
Proof.
  intros Hf Hm. unfold Body.mutate.
  destruct (m record) as [res' r'] eqn:E. intros [= _ <-].
  right; left. exists k, record, r'. eauto.
Qed.

Lemma effect_add_contact (args : list str) (book book' : AddressBook.t)
      (res : result str) :
  Body.add_contact args book = (res, book') -> effect args book book'.
Proof.
  unfold Body.add_contact.
  destruct args as [|name [|phone rest]]; try (intros [= _ <-]; now left).
  unfold bind at 1. unfold get at 1.
  destruct (find name book) as [record|] eqn:Hf.
  - unfold bind at 1. unfold ret at 1. cbn [fst snd].
    destruct (Body.truthy phone).
    + unfold bind. destruct (Body.mutate _ _ _ _) as [[[]|e] b1] eqn:E;
        intros [= _ <-];
        (eapply mutate_effect; [exact Hf | | exact E]);
        intros res' r' E'; apply rec_step_incl with (args := [phone]);
        try (intros x [<-|[]]; simpl; tauto);
        exact (add_phone_step _ _ _ _ E').
    + unfold bind, ret. intros [= _ <-]. now left.
  - unfold bind at 1. unfold bind at 1. unfold lift, Rec.init, Name.init.
    destruct name as [|c name]; [intros [= _ <-]; now left|].
    unfold bind at 1. unfold AddressBook.add_record, bind, get, put, ret.
    cbn [fst snd Rec.name Name.value].
    set (k := c :: name). fold k in Hf.
    destruct (Body.truthy phone).
    + unfold Body.mutate.
      destruct (Rec.add_phone phone _) as [res' r'] eqn:E.
      rewrite setitem_setitem, setitem_absent by assumption.
      assert (Hs : rec_step (k :: phone :: rest)
                     (Rec.make (Name.make k) [] None) r').
      { apply rec_step_incl with (args := [phone]);
          [intros x [<-|[]]; simpl; tauto|].
        exact (add_phone_step _ _ _ _ E). }
      destruct res' as [[]|e]; intros [= _ <-];
        right; right; exists k, r';
        (split; [exact Hf|]); (split; [discriminate|]);
        (split; [simpl; auto|]); (split; [exact Hs | reflexivity]).
    + rewrite setitem_absent by assumption. intros [= _ <-].
      right; right. exists k, (Rec.make (Name.make k) [] None).
      split; [exact Hf|]. split; [discriminate|]. split; [simpl; auto|].
      split; [apply rec_step_refl | reflexivity].
Qed.

Lemma effect_change_phone (args : list str) (book book' : AddressBook.t)
      (res : result str) :
  Body.change_phone args book = (res, book') -> effect args book book'.
Proof.
  unfold Body.change_phone.
  destruct args as [|name [|old [|new rest]]]; try (intros [= _ <-]; now left).
  unfold bind at 1. unfold get at 1.
  destruct (find name book) as [record|] eqn:Hf; [|intros [= _ <-]; now left].
  unfold bind, ret.
  destruct (Body.mutate _ _ _ _) as [[[]|e] b1] eqn:E; intros [= _ <-];
    (eapply mutate_effect; [exact Hf | | exact E]);
    intros res' r' E'; apply rec_step_incl with (args := [new]);
    try (intros x [<-|[]]; simpl; tauto);
    exact (edit_phone_step _ _ _ _ _ E').
Qed.

Lemma effect_add_birthday (args : list str) (book book' : AddressBook.t)
      (res : result str) :
  Body.add_birthday args book = (res, book') -> effect args book book'.
Proof.
  unfold Body.add_birthday.
  destruct args as [|name [|birthday rest]]; try (intros [= _ <-]; now left).
  unfold bind at 1. unfold get at 1.
  destruct (find name book) as [record|] eqn:Hf; [|intros [= _ <-]; now left].
  unfold bind, ret.
  destruct (Body.mutate _ _ _ _) as [[[]|e] b1] eqn:E; intros [= _ <-];
    (eapply mutate_effect; [exact Hf | | exact E]);
    intros res' r' E'; apply rec_step_incl with (args := []);
    try (intros x []);
    exact (add_birthday_step _ _ _ _ E').
Qed.

Lemma same_show_phone (args : list str) (book book' : AddressBook.t)
      (res : result str) :
  Body.show_phone args book = (res, book') -> book' = book.
Proof.
  unfold Body.show_phone, bind, get, ret, raise.
  destruct args as [|name rest]; [now intros [= _ <-]|].
  destruct (find name book); now intros [= _ <-].
Qed.

Lemma same_show_all_contacts (book book' : AddressBook.t) (res : result str) :
  Body.show_all_contacts book = (res, book') -> book' = book.
Proof. unfold Body.show_all_contacts, bind, get, ret. now intros [= _ <-]. Qed.

Lemma same_show_birthday (args : list str) (book book' : AddressBook.t)
      (res : result str) :
  Body.show_birthday args book = (res, book') -> book' = book.
Proof.
  unfold Body.show_birthday, bind, get, ret, raise.
  destruct args as [|name rest]; [now intros [= _ <-]|].
  destruct (find name book) as [[nm ps [b|]]|]; now intros [= _ <-].
Qed.

Lemma same_birthdays (today : Date.t) (args : list str)
      (book book' : AddressBook.t) (res : result str) :
  Body.birthdays today args book = (res, book') -> book' = book.
Proof.
  unfold Body.birthdays, bind, get, ret, lift.
  destruct (get_upcoming_birthdays today book); now intros [= _ <-].
Qed.

Lemma input_error_snd (repr : str -> str) (f : M AddressBook.t str)
      (book : AddressBook.t) :
  snd (input_error repr f book) = snd (f book).
Proof. unfold input_error. now destruct (f book) as [[s|e] b]. Qed.

(** ** The invariant of the book *)

Lemma find_In (k : str) (r : Rec.t) (book : AddressBook.t) :
  find k book = Some r -> In (k, r) book.
Proof.
  induction book as [|[k0 r0] book IH]; simpl; [discriminate|].
  destruct (str_eqb k0 k) eqn:E.
  - apply str_eqb_eq in E. intros [= ->]. left. now subst.
  - intros H. right. auto.
Qed.

Lemma In_setitem (k k0 : str) (r r0 : Rec.t) (book : AddressBook.t) :
  In (k0, r0) (setitem k r book) -> (k0 = k /\ r0 = r) \/ In (k0, r0) book.
Proof.
  induction book as [|[k1 r1] book IH]; simpl.
  - intros [[= <- <-]|[]]. now left.
  - destruct (str_eqb k1 k) eqn:E; simpl.
    + apply str_eqb_eq in E. subst k1. intros [[= <- <-]|H]; auto.
    + intros [H|H]; auto. destruct (IH H); auto.
Qed.

Lemma rec_step_ok (args : list str) (r r' : Rec.t) :
  rec_step args r r' -> rec_ok r -> rec_ok r'.
Proof.
  intros (Hn & Hp & Hb) (On & Op & Ob). unfold rec_ok. rewrite Hn.
  split; [exact On|]. split.
  - intros p Hin. destruct (Hp p Hin) as [?|[_ ?]]; auto.
  - intros b E. destruct (Hb b E) as [?|?]; auto.
Qed.

Lemma effect_book_ok (args : list str) (book book' : AddressBook.t) :
  effect args book book' -> book_ok book -> book_ok book'.
Proof.
  intros [->|[(k & r & r' & Hf & Hs & ->)|(k & r' & Hf & Hk & _ & Hs & ->)]]
         [Hwf Hall]; [now split| |].
  - destruct (Hall k r (find_In _ _ _ Hf)) as [Hn Hok].
    split; [now apply setitem_wf|].
    intros k0 r0 Hin. apply In_setitem in Hin.
    destruct Hin as [[-> ->]|Hin]; [|auto].
    split; [|exact (rec_step_ok _ _ _ Hs Hok)].
    destruct Hs as (-> & _). exact Hn.
  - split.
    + rewrite <- (setitem_absent k r' book Hf). now apply setitem_wf.
    + intros k0 r0 Hin. apply in_app_or in Hin.
      destruct Hin as [Hin|[[= <- <-]|[]]]; [auto|].
      assert (Hok : rec_ok (Rec.make (Name.make k) [] None)).
      { unfold rec_ok. simpl. split; [exact Hk|]. split; [tauto | discriminate]. }
      split; [|exact (rec_step_ok _ _ _ Hs Hok)].
      destruct Hs as (-> & _). reflexivity.
Qed.

Lemma effect_keys (args : list str) (book book' : AddressBook.t) :
  effect args book book' ->
  prefix (List.map fst book) (List.map fst book').
Proof.
  intros [->|[(k & r & r' & Hf & Hs & ->)|(k & r' & Hf & Hk & _ & Hs & ->)]].
  - exists []. now rewrite app_nil_r.
  - exists []. rewrite app_nil_r. exact (setitem_keys k r' r book Hf).
  - exists [k]. now rewrite map_app.
Qed.

(** ** Dates as they are shown *)

Lemma Z_range_In (lo z : Z) (n : nat) :
  (lo <= z < lo + Z.of_nat n)%Z -> In z (Z_range lo n).
Proof.
  revert lo; induction n as [|n IH]; intros lo H; [lia|].
  simpl. destruct (Z.eq_dec lo z) as [->|Hne]; [now left|].
  right. apply IH. lia.
Qed.

Lemma pad2_two_digits (z : Z) :
  (1 <= z <= 31)%Z -> two_digits_of z (Date.pad2 z) = true.
Proof.
  intros H.
  assert (Hall : forallb (fun z => two_digits_of z (Date.pad2 z)) (Z_range 1 31) = true)
    by (vm_compute; reflexivity).
  rewrite forallb_forall in Hall. apply Hall, Z_range_In. lia.
Qed.

Lemma year_four_digits (z : Z) :
  (1000 <= z <= 9999)%Z -> four_digits_of z (Date.dec_Z z) = true.
Proof.
  intros H.
  assert (Hall : forallb (fun z => four_digits_of z (Date.dec_Z z))
                   (Z_range 1000 (Z.to_nat 9000)) = true)
    by (vm_compute; reflexivity).
  rewrite forallb_forall in Hall. apply Hall, Z_range_In. lia.
Qed.

Lemma strftime_strict (d : Date.t) :
  Date.valid d -> (1000 <= Date.year d)%Z ->
  DD_MM_YYYY (Date.strftime_dmY d) = true
  /\ strict_date (Date.strftime_dmY d) = d.
Proof.
  intros (Hy & Hm & Hd) H1000. unfold Date.MAXYEAR in Hy.
  pose proof (days_in_month_le (Date.year d) (Date.month d)) as Hle.
  assert (Pd : two_digits_of (Date.day d) (Date.pad2 (Date.day d)) = true)
    by (apply pad2_two_digits; lia).
  assert (Pm : two_digits_of (Date.month d) (Date.pad2 (Date.month d)) = true)
    by (apply pad2_two_digits; lia).
  assert (Py : four_digits_of (Date.year d) (Date.dec_Z (Date.year d)) = true)
    by (apply year_four_digits; lia).
  unfold Date.strftime_dmY.
  remember (Date.pad2 (Date.day d)) as pd eqn:E1.
  remember (Date.pad2 (Date.month d)) as pm eqn:E2.
  remember (Date.dec_Z (Date.year d)) as py eqn:E3.
  clear E1 E2 E3.
  destruct pd as [|d1 [|d2 [|]]]; try discriminate Pd.
  destruct pm as [|m1 [|m2 [|]]]; try discriminate Pm.
  destruct py as [|y1 [|y2 [|y3 [|y4 [|]]]]]; try discriminate Py.
  unfold two_digits_of, four_digits_of in *.
  repeat rewrite andb_true_iff in Pd. repeat rewrite andb_true_iff in Pm.
  repeat rewrite andb_true_iff in Py. rewrite Z.eqb_eq in Pd, Pm, Py.
  destruct Pd as [[D1 D2] Ed], Pm as [[M1 M2] Em],
      Py as [[[[Y1 Y2] Y3] Y4] Ey].
  change ([d1; d2] ++ lit "." ++ [m1; m2] ++ lit "." ++ [y1; y2; y3; y4])
    with [d1; d2; 46%N; m1; m2; 46%N; y1; y2; y3; y4].
  split.
  - unfold DD_MM_YYYY. cbn [forallb].
    rewrite D1, D2, M1, M2, Y1, Y2, Y3, Y4. reflexivity.
  - cbn [strict_date]. rewrite Ed, Em, Ey. now destruct d.
Qed.

(** ** The book: storing, finding, deleting *)

Lemma delitem_app_absent (k : str) (r : Rec.t) (book : AddressBook.t) :
  find k book = None -> delitem k (book ++ [(k, r)]) = book.
Proof.
  induction book as [|[k0 r0] book IH]; simpl.
  - now rewrite str_eqb_refl.
  - destruct (str_eqb k0 k); [discriminate|]. intros H. now rewrite IH.
Qed.

(** X8: [add_record] never raises; afterwards [find] returns the record
    under its name and every other name is found as before; a new name goes
    to the end of the book, a name that was there keeps its place; the keys
    stay distinct. *)
Theorem add_record_then_find (r : Rec.t) (book : AddressBook.t) :
  exists book',
    AddressBook.add_record r book = (Ok tt, book')
    /\ find (Name.value (Rec.name r)) book' = Some r
    /\ (forall k, k <> Name.value (Rec.name r) -> find k book' = find k book)
    /\ (find (Name.value (Rec.name r)) book = None ->
        book' = book ++ [(Name.value (Rec.name r), r)])
    /\ (forall r0, find (Name.value (Rec.name r)) book = Some r0 ->
        List.map fst book' = List.map fst book)
    /\ (wf book -> wf book').
Proof.
  exists (setitem (Name.value (Rec.name r)) r book).
  split; [reflexivity|]. split; [apply find_setitem_same|].
  split; [intros k Hk; now apply find_setitem_other|].
  split; [apply setitem_absent|].
  split; [intros r0; apply setitem_keys | apply setitem_wf].
Qed.

(** X9: deleting the name of a record that was just added under a new
    name gives back the book as it was. *)
Theorem delete_undoes_add_record (r : Rec.t) (book : AddressBook.t) :
  find (Name.value (Rec.name r)) book = None ->
  exists book',
    AddressBook.add_record r book = (Ok tt, book')
    /\ AddressBook.delete (Name.value (Rec.name r)) book' = (Ok tt, book).
Proof.
  intros Hf. exists (setitem (Name.value (Rec.name r)) r book).
  split; [reflexivity|].
  unfold AddressBook.delete, bind, get, put.
  rewrite find_setitem_same, setitem_absent by assumption.
  now rewrite delitem_app_absent.
Qed.

Lemma delete_undoes_add_record_witness :
  find (Name.value (Rec.name bob_leap)) [(lit "Alice", alice)] = None
  /\ exists book',
      AddressBook.add_record bob_leap [(lit "Alice", alice)] = (Ok tt, book')
      /\ AddressBook.delete (Name.value (Rec.name bob_leap)) book'
         = (Ok tt, [(lit "Alice", alice)]).
Proof.
  split; [reflexivity|].
  exact (delete_undoes_add_record bob_leap [(lit "Alice", alice)] eq_refl).
Defined.

(** ** The commands on a contact *)

(** X10: the change command on a contact of the book.  When the old number
    is in the list and the new one passes validation it answers "Phone
    number updated." and the list has lost the first occurrence of the old
    number and gained the new one at its end: the record found under the
    name afterwards has that phone list, and the name and the birthday it
    had, the other contacts being untouched; when the old number is not in
    the list it answers "Error: Phone number not found." and the book is as
    it was. *)
Theorem change_phone_command (repr : str -> str) (name old new : str)
        (rest : list str) (book : AddressBook.t) (r : Rec.t) :
  find name book = Some r ->
  (forall before after,
      Rec.phones r = before ++ Phone.make old :: after ->
      (forall q, In q before -> Phone.value q <> old) ->
      Phone.validate new = true ->
      change_phone repr (name :: old :: new :: rest) book
      = (lit "Phone number updated.",
         setitem name
                 (Rec.make (Rec.name r) (before ++ after ++ [Phone.make new])
                           (Rec.birthday r))
                 book)
      /\ (exists r',
            find name (snd (change_phone repr (name :: old :: new :: rest) book))
            = Some r'
            /\ Rec.phones r' = before ++ after ++ [Phone.make new]
            /\ Rec.name r' = Rec.name r
            /\ Rec.birthday r' = Rec.birthday r)
      /\ (forall k, k <> name ->
          find k (snd (change_phone repr (name :: old :: new :: rest) book))
          = find k book))
  /\ ((forall q, In q (Rec.phones r) -> Phone.value q <> old) ->
      change_phone repr (name :: old :: new :: rest) book
      = (lit "Error: Phone number not found.", book)).
Proof.
  intros Hf. split.
  - intros before after Hl Hfirst Hv.
    assert (Hrun : change_phone repr (name :: old :: new :: rest) book
                   = (lit "Phone number updated.",
                      setitem name
                        (Rec.make (Rec.name r) (before ++ after ++ [Phone.make new])
                                  (Rec.birthday r))
                        book)).
    { unfold change_phone, input_error, Body.change_phone, bind at 1.
      unfold get at 1. rewrite Hf. unfold bind, ret, Body.mutate.
      now rewrite (edit_phone_valid r old new before after Hl Hfirst Hv). }
    split; [exact Hrun|]. rewrite Hrun. cbn [snd]. split.
    + eexists. split; [apply find_setitem_same|]. now cbn.
    + intros k Hk. now apply find_setitem_other.
  - intros Habs.
    unfold change_phone, input_error, Body.change_phone, bind at 1.
    unfold get at 1. rewrite Hf. unfold bind, ret, Body.mutate.
    rewrite (edit_phone_absent r old new Habs).
    now rewrite (setitem_id name r book Hf).
Qed.

Lemma change_phone_command_witness :
  find (lit "Alice") [(lit "Alice", twice); (lit "Bob", bob_leap)] = Some twice
  /\ change_phone repr_plain [lit "Alice"; lit "1111111111"; lit "4444444444"]
       [(lit "Alice", twice); (lit "Bob", bob_leap)]
     = (lit "Phone number updated.",
        [(lit "Alice",
          Rec.make (Name.make (lit "Alice"))
                   [Phone.make (lit "2222222222"); Phone.make (lit "3333333333");
                    Phone.make (lit "1111111111"); Phone.make (lit "4444444444")]
                   None);
         (lit "Bob", bob_leap)])
  /\ change_phone repr_plain [lit "Alice"; lit "5555555555"; lit "4444444444"]
       [(lit "Alice", twice); (lit "Bob", bob_leap)]
     = (lit "Error: Phone number not found.",
        [(lit "Alice", twice); (lit "Bob", bob_leap)]).
Proof.
  split; [reflexivity|]. split.
  - refine (proj1 (proj1 (change_phone_command repr_plain (lit "Alice")
                            (lit "1111111111") (lit "4444444444") []
                            [(lit "Alice", twice); (lit "Bob", bob_leap)] twice
                            eq_refl)
                     [Phone.make (lit "2222222222")]
                     [Phone.make (lit "3333333333"); Phone.make (lit "1111111111")]
                     eq_refl _ eq_refl)).
    intros q [<-|[]]. discriminate.
  - refine (proj2 (change_phone_command repr_plain (lit "Alice") (lit "5555555555")
                     (lit "4444444444") []
                     [(lit "Alice", twice); (lit "Bob", bob_leap)] twice eq_refl) _).
    intros q Hin. simpl in Hin.
    repeat destruct Hin as [<-|Hin]; try destruct Hin; discriminate.
Defined.

(** X11: the birthday commands on a contact of the book.  With a date that
    [Birthday] accepts, add-birthday answers "Birthday added.", replaces the
    birthday of the record, whatever it was, and keeps its phones, and
    show-birthday then answers the name of the record, a colon and the date
    as day.month.year; with a date that [Birthday] refuses, add-birthday
    answers the error and the book is as it was; show-birthday on a record
    without birthday answers "Error: Birthday not found.". *)
Theorem birthday_commands (repr : str -> str) (name date : str)
        (rest rest' : list str) (book : AddressBook.t) (r : Rec.t) :
  find name book = Some r ->
  (forall b, Birthday.init date = Ok b ->
     let book' := setitem name (Rec.set_birthday (Some b) r) book in
     add_birthday repr (name :: date :: rest) book = (lit "Birthday added.", book')
     /\ show_birthday repr (name :: rest') book'
        = (Name.value (Rec.name r) ++ lit ": "
             ++ Date.strftime_dmY (Birthday.value b), book'))
  /\ (forall e, Birthday.init date = Raise e ->
      add_birthday repr (name :: date :: rest) book
      = (lit "Error: Invalid date format. Use DD.MM.YYYY", book))
  /\ (Rec.birthday r = None ->
      show_birthday repr (name :: rest') book
      = (lit "Error: Birthday not found.", book)).
Proof.
  intros Hf. split; [|split].
  - intros b Hb book'. split.
    + unfold add_birthday, input_error, Body.add_birthday, bind at 1.
      unfold get at 1. rewrite Hf.
      unfold bind, ret, Body.mutate, Rec.add_birthday, bind, lift, get, put.
      now rewrite Hb.
    + unfold show_birthday, input_error, Body.show_birthday, bind, get, ret.
      unfold book'. rewrite find_setitem_same. now destruct r.
  - intros e Hb.
    unfold add_birthday, input_error, Body.add_birthday, bind at 1.
    unfold get at 1. rewrite Hf.
    unfold bind, ret, Body.mutate, Rec.add_birthday, bind, lift, get, put.
    rewrite Hb. rewrite (setitem_id name r book Hf).
    unfold Birthday.init in Hb.
    destruct (Birthday.strptime_dmY date); [discriminate|].
    now injection Hb as <-.
  - intros Hb.
    unfold show_birthday, input_error, Body.show_birthday, bind, get, raise.
    rewrite Hf. destruct r as [nm ps [b|]]; [discriminate|reflexivity].
Qed.

Lemma birthday_commands_witness :
  find (lit "Alice") [(lit "Alice", alice)] = Some alice
  /\ add_birthday repr_plain [lit "Alice"; lit "5.3.1990"] [(lit "Alice", alice)]
     = (lit "Birthday added.",
        [(lit "Alice",
          Rec.set_birthday (Some (Birthday.make (Date.make 1990 3 5))) alice)])
  /\ show_birthday repr_plain [lit "Alice"]
       [(lit "Alice",
         Rec.set_birthday (Some (Birthday.make (Date.make 1990 3 5))) alice)]
     = (lit "Alice: 05.03.1990",
        [(lit "Alice",
          Rec.set_birthday (Some (Birthday.make (Date.make 1990 3 5))) alice)]).
Proof.
  split; [reflexivity|].
  exact (proj1 (birthday_commands repr_plain (lit "Alice") (lit "5.3.1990") [] []
                  [(lit "Alice", alice)] alice eq_refl)
           (Birthday.make (Date.make 1990 3 5)) eq_refl).
Defined.

(** X12: a date of the years 1000 to 9999, written as the program shows it,
    is read back by [Birthday] as the same date. *)
Theorem shown_birthday_reads_back (d : Date.t) :
  Date.valid d -> (1000 <= Date.year d)%Z ->
  Birthday.init (Date.strftime_dmY d) = Ok (Birthday.make d).
Proof.
  intros Hv Hy. destruct (strftime_strict d Hv Hy) as [Hs Hd].
  assert (Hr : reads (Date.strftime_dmY d) d).
  { rewrite <- Hd at 2. apply strict_reads; [exact Hs | now rewrite Hd]. }
  apply strptime_reads in Hr. unfold Birthday.init. now rewrite Hr.
Qed.

Lemma shown_birthday_reads_back_witness :
  Date.valid (Date.make 2000 2 29)
  /\ Date.strftime_dmY (Date.make 2000 2 29) = lit "29.02.2000"
  /\ Birthday.init (Date.strftime_dmY (Date.make 2000 2 29))
     = Ok (Birthday.make (Date.make 2000 2 29)).
Proof.
  assert (V : Date.valid (Date.make 2000 2 29))
    by (unfold Date.valid; vm_compute; intuition discriminate).
  split; [exact V|]. split; [reflexivity|].
  refine (shown_birthday_reads_back (Date.make 2000 2 29) V _).
  vm_compute. discriminate.
Defined.

(** X13: a command given fewer arguments than it unpacks answers the error
    of the unpacking, with the number it expects and the number it got, and
    leaves the book as it was: two for add and add-birthday, three for
    change, one for phone and show-birthday.  In particular add with a name
    alone does not create the contact. *)
Theorem too_few_arguments (repr : str -> str) (args : list str)
        (book : AddressBook.t) :
  let answer n :=
    (lit "Error: not enough values to unpack (expected at least " ++ dec n
       ++ lit ", got " ++ dec (N.of_nat (List.length args)) ++ lit ")", book) in
  (List.length args < 2 ->
   add_contact repr args book = answer 2%N
   /\ add_birthday repr args book = answer 2%N)
  /\ (List.length args < 3 -> change_phone repr args book = answer 3%N)
  /\ (List.length args < 1 ->
      show_phone repr args book = answer 1%N
      /\ show_birthday repr args book = answer 1%N).
Proof.
  cbv zeta. split; [|split].
  - intros H. destruct args as [|a [|b args]]; [| |simpl in H; lia];
      split; reflexivity.
  - intros H. destruct args as [|a [|b [|c args]]]; [| | |simpl in H; lia];
      reflexivity.
  - intros H. destruct args as [|a args]; [|simpl in H; lia].
    split; reflexivity.
Qed.

Lemma too_few_arguments_witness :
  add_contact repr_plain [lit "Bob"] []
  = (lit "Error: not enough values to unpack (expected at least 2, got 1)", [])
  /\ change_phone repr_plain [lit "Bob"; lit "1111111111"] [(lit "Bob", bob_leap)]
     = (lit "Error: not enough values to unpack (expected at least 3, got 2)",
        [(lit "Bob", bob_leap)]).
Proof.
  split.
  - refine (proj1 (proj1 (too_few_arguments repr_plain [lit "Bob"] []) _)).
    simpl. lia.
  - refine (proj1 (proj2 (too_few_arguments repr_plain
                            [lit "Bob"; lit "1111111111"]
                            [(lit "Bob", bob_leap)])) _).
    simpl. lia.
Defined.

(** X14: a name that is not in the book.  The phone and add-birthday
    commands answer "Error: Contact not found.", show-birthday answers
    "Error: Birthday not found.", and the book is as it was: none of them
    creates the contact. *)
Theorem unknown_contact (repr : str -> str) (name : str) (more : str)
        (rest : list str) (book : AddressBook.t) :
  find name book = None ->
  show_phone repr (name :: rest) book = (lit "Error: Contact not found.", book)
  /\ add_birthday repr (name :: more :: rest) book
     = (lit "Error: Contact not found.", book)
  /\ show_birthday repr (name :: rest) book
     = (lit "Error: Birthday not found.", book).
Proof.
  intros Hf. repeat split.
  - unfold show_phone, input_error, Body.show_phone, bind, get, raise.
    now rewrite Hf.
  - unfold add_birthday, input_error, Body.add_birthday, bind, get, raise.
    now rewrite Hf.
  - unfold show_birthday, input_error, Body.show_birthday, bind, get, raise.
    now rewrite Hf.
Qed.

Lemma unknown_contact_witness :
  find (lit "Carol") [(lit "Alice", alice)] = None
  /\ show_phone repr_plain [lit "Carol"] [(lit "Alice", alice)]
     = (lit "Error: Contact not found.", [(lit "Alice", alice)])
  /\ add_birthday repr_plain [lit "Carol"; lit "01.01.2000"] [(lit "Alice", alice)]
     = (lit "Error: Contact not found.", [(lit "Alice", alice)])
  /\ show_birthday repr_plain [lit "Carol"] [(lit "Alice", alice)]
     = (lit "Error: Birthday not found.", [(lit "Alice", alice)]).
Proof.
  split; [reflexivity|].
  exact (unknown_contact repr_plain (lit "Carol") (lit "01.01.2000") []
           [(lit "Alice", alice)] eq_refl).
Defined.

(** ** What the commands do to the book, together *)

Lemma snd_pair {A B} (x : A * B) : x = (fst x, snd x).
Proof. now destruct x. Qed.

(** X15: add, change and add-birthday change one record of the book at
    most: either the record found under a key is replaced, in its place, by
    a record of the same name whose phones were there before or are
    arguments that passed validation, and whose birthday was there before or
    is a date of the calendar; or a record is put at the end under a new
    key, not empty, taken from the arguments.  The phone, all, show-birthday
    and birthdays commands leave the book as it was. *)
Theorem commands_change_one_record (repr : str -> str) (today : Date.t)
        (args : list str) (book : AddressBook.t) :
  (forall f,
      In f [add_contact repr args; change_phone repr args;
            add_birthday repr args] ->
      effect args book (snd (f book)))
  /\ (forall f,
         In f [show_phone repr args; show_all_contacts repr;
               show_birthday repr args; birthdays repr today args] ->
         snd (f book) = book).
Proof.
  split; intros f Hin; simpl in Hin;
    repeat match goal with
           | H : _ \/ _ |- _ => destruct H as [H|H]
           | H : False |- _ => destruct H
           end; subst f;
    unfold add_contact, change_phone, add_birthday, show_phone,
      show_all_contacts, show_birthday, birthdays;
    rewrite input_error_snd.
  - exact (effect_add_contact _ _ _ _ (snd_pair _)).
  - exact (effect_change_phone _ _ _ _ (snd_pair _)).
  - exact (effect_add_birthday _ _ _ _ (snd_pair _)).
  - exact (same_show_phone _ _ _ _ (snd_pair _)).
  - exact (same_show_all_contacts _ _ _ (snd_pair _)).
  - exact (same_show_birthday _ _ _ _ (snd_pair _)).
  - exact (same_birthdays _ _ _ _ _ (snd_pair _)).
Qed.

Lemma commands_effect (repr : str -> str) (today : Date.t)
      (args : list str) (book : AddressBook.t) (f : AddressBook.t -> str * AddressBook.t) :
  In f [add_contact repr args; change_phone repr args; show_phone repr args;
        show_all_contacts repr; add_birthday repr args;
        show_birthday repr args; birthdays repr today args] ->
  effect args book (snd (f book)).
Proof.
  intros Hin. simpl in Hin.
  repeat match goal with
         | H : _ \/ _ |- _ => destruct H as [H|H]
         | H : False |- _ => destruct H
         end; subst f;
    unfold add_contact, change_phone, add_birthday, show_phone,
      show_all_contacts, show_birthday, birthdays;
    rewrite input_error_snd.
  - exact (effect_add_contact _ _ _ _ (snd_pair _)).
  - exact (effect_change_phone _ _ _ _ (snd_pair _)).
  - left. exact (same_show_phone _ _ _ _ (snd_pair _)).
  - left. exact (same_show_all_contacts _ _ _ (snd_pair _)).
  - exact (effect_add_birthday _ _ _ _ (snd_pair _)).
  - left. exact (same_show_birthday _ _ _ _ (snd_pair _)).
  - left. exact (same_birthdays _ _ _ _ _ (snd_pair _)).
Qed.

(** X16: the commands keep the book well formed and never remove or move a
    contact.  From a book with distinct keys, each the name of its record,
    whose names are not empty, whose phones all pass validation and whose
    birthdays are dates of the calendar, each of the seven commands leads to
    such a book, and the keys of the book before are the first keys of the
    book after, in the same order. *)
Theorem commands_keep_book_ok (repr : str -> str) (today : Date.t)
        (args : list str) (book : AddressBook.t) :
  book_ok book ->
  forall f,
    In f [add_contact repr args; change_phone repr args; show_phone repr args;
          show_all_contacts repr; add_birthday repr args;
          show_birthday repr args; birthdays repr today args] ->
    book_ok (snd (f book))
    /\ prefix (List.map fst book) (List.map fst (snd (f book))).
Proof.
  intros Hok f Hin.
  pose proof (commands_effect repr today args book f Hin) as He.
  split; [exact (effect_book_ok _ _ _ He Hok) | exact (effect_keys _ _ _ He)].
Qed.

Lemma book_ok_empty : book_ok [].
Proof. split; [constructor | intros k r []]. Qed.

Lemma commands_keep_book_ok_witness :
  book_ok []
  /\ book_ok (snd (add_contact repr_plain [lit "Alice"; lit "1234567890"] []))
  /\ prefix (List.map fst (@nil (str * Rec.t)))
       (List.map fst (snd (add_contact repr_plain [lit "Alice"; lit "1234567890"] []))).
Proof.
  split; [exact book_ok_empty|].
  refine (commands_keep_book_ok repr_plain (Date.make 2026 11 3)
            [lit "Alice"; lit "1234567890"] [] book_ok_empty
            (add_contact repr_plain [lit "Alice"; lit "1234567890"]) _).
  left. reflexivity.
Defined.

(** ** Words of a line *)

Lemma split_from_words (s cur : str) :
  (forall c, In c cur -> is_space c = false) ->
  forall t, In t (split_from cur s) -> word t.
Proof.
  revert cur; induction s as [|c s IH]; intros cur Hcur t; simpl.
  - destruct cur as [|c0 cur]; [intros []|]. intros [<-|[]]. split.
    + intros E. apply (f_equal (@List.length N)) in E.
      rewrite length_rev in E. discriminate.
    + intros c Hin. apply Hcur. now apply in_rev.
  - destruct (is_space c) eqn:Hc.
    + destruct cur as [|c0 cur].
      * apply IH. intros ? [].
      * intros [<-|Hin].
        -- split.
           ++ intros E. apply (f_equal (@List.length N)) in E.
              rewrite length_rev in E. discriminate.
           ++ intros c1 Hin. apply Hcur. now apply in_rev.
        -- revert Hin. apply IH. intros ? [].
    + apply IH. intros c1 [<-|Hin]; auto.
Qed.

Lemma split_from_nil (s cur : str) :
  split_from cur s = [] <-> cur = [] /\ forallb is_space s = true.
Proof.
  revert cur; induction s as [|c s IH]; intros cur; simpl.
  - destruct cur; split; try tauto; try discriminate. intros [? _]. discriminate.
  - destruct (is_space c) eqn:Hc; simpl.
    + destruct cur as [|c0 cur].
      * rewrite IH. tauto.
      * split; [discriminate | intros [? _]; discriminate].
    + rewrite IH. split; [intros [? _]; discriminate | intros [_ ?]; discriminate].
Qed.

Lemma split_from_word (t s cur : str) :
  (forall c, In c t -> is_space c = false) ->
  split_from cur (t ++ s) = split_from (List.rev t ++ cur) s.
Proof.
  revert cur; induction t as [|c t IH]; intros cur Ht; simpl; [reflexivity|].
  rewrite (Ht c) by now left.
  rewrite IH by (intros; apply Ht; now right).
  now rewrite <- app_assoc.
Qed.

Lemma split_join (w : str) (ws : list str) :
  Forall word (w :: ws) -> split (join (lit " ") (w :: ws)) = w :: ws.
Proof.
  unfold split. revert w; induction ws as [|w' ws IH]; intros w Hall.
  - inversion Hall as [|? ? [Hne Hw] _]; subst. simpl.
    rewrite <- (app_nil_r w) at 1.
    rewrite split_from_word by assumption. simpl. rewrite app_nil_r.
    destruct (List.rev w) eqn:E.
    + apply (f_equal (@List.length N)) in E. rewrite length_rev in E.
      destruct w; [congruence | discriminate].
    + now rewrite <- E, rev_involutive.
  - inversion Hall as [|? ? [Hne Hw] Hrest]; subst.
    change (join (lit " ") (w :: w' :: ws))
      with (w ++ lit " " ++ join (lit " ") (w' :: ws)).
    rewrite split_from_word by assumption. rewrite app_nil_r.
    change (lit " " ++ join (lit " ") (w' :: ws))
      with (32%N :: join (lit " ") (w' :: ws)).
    cbn [split_from]. change (is_space 32) with true. cbv iota.
    destruct (List.rev w) eqn:E.
    + apply (f_equal (@List.length N)) in E. rewrite length_rev in E.
      destruct w; [congruence | discriminate].
    + rewrite <- E, rev_involutive. now rewrite (IH w' Hrest).
Qed.

(** X17: [parse_input] raises the [IndexError] "list index out of range"
    exactly on the lines made of whitespace only, the empty line among
    them; otherwise the command and the arguments are words, not empty and
    without whitespace; and words typed with one blank between them are
    read back as they were typed. *)
Theorem parse_input_words (user_input : str) :
  (parse_input user_input = Raise (IndexError (lit "list index out of range"))
   <-> forallb is_space user_input = true)
  /\ (forall command args,
         parse_input user_input = Ok (command, args) ->
         Forall word (command :: args))
  /\ (forall w ws,
         Forall word (w :: ws) -> user_input = join (lit " ") (w :: ws) ->
         parse_input user_input = Ok (w, ws)).
Proof.
  unfold parse_input. split; [|split].
  - destruct (split user_input) as [|c a] eqn:E.
    + apply split_from_nil in E. tauto.
    + split; [discriminate|]. intros H.
      assert (E' : split user_input = []) by (apply split_from_nil; tauto).
      congruence.
  - intros command args.
    destruct (split user_input) as [|c a] eqn:E; [discriminate|].
    intros [= <- <-]. apply Forall_forall. intros t Hin.
    apply (split_from_words user_input []); [intros ? []|].
    unfold split in E. now rewrite E.
  - intros w ws Hall ->. now rewrite split_join.
Qed.

(** ** The loop *)

Lemma parse_input_ok_words (user_input command : str) (args : list str) :
  parse_input user_input = Ok (command, args) -> Forall word (command :: args).
Proof.
  unfold parse_input.
  destruct (split user_input) as [|c a] eqn:E; [discriminate|].
  intros [= <- <-]. apply Forall_forall. intros t Hin.
  apply (split_from_words user_input []); [intros ? []|].
  unfold split in E. now rewrite E.
Qed.

Lemma parse_input_raises (user_input : str) (e : exn) :
  parse_input user_input = Raise e ->
  e = IndexError (lit "list index out of range")
  /\ forallb is_space user_input = true.
Proof.
  unfold parse_input.
  destruct (split user_input) as [|c a] eqn:E; [|discriminate].
  intros [= <-]. split; [reflexivity|]. now apply split_from_nil in E.
Qed.

Lemma dispatch_effect (repr : str -> str) (today : Date.t) (command : str)
      (args : list str) (book : AddressBook.t) :
  effect args book (snd (dispatch repr today command args book)).
Proof.
  unfold dispatch.
  repeat match goal with
         | |- context [if str_eqb ?a ?b then _ else _] => destruct (str_eqb a b)
         end;
    try (left; reflexivity);
    apply (commands_effect repr today); simpl; tauto.
Qed.

Lemma validate_word_ten (v : str) :
  Phone.validate v = true -> word v -> ten_digits v.
Proof.
  intros Hv [_ Hw]. apply validate_spec in Hv.
  destruct Hv as (ds & Hlen & Hd & [->| ->]); [now split|].
  assert (H : is_space 10 = false) by (apply Hw, in_or_app; right; now left).
  discriminate H.
Qed.

Lemma rec_step_ten_digits (args : list str) (r r' : Rec.t) :
  rec_step args r r' -> Forall word args ->
  (forall p, In p (Rec.phones r) -> ten_digits (Phone.value p)) ->
  forall p, In p (Rec.phones r') -> ten_digits (Phone.value p).
Proof.
  intros (_ & Hp & _) Hw Hold p Hin.
  destruct (Hp p Hin) as [?|[Ha Hv]]; [auto|].
  apply validate_word_ten; [exact Hv|].
  rewrite Forall_forall in Hw. auto.
Qed.

Lemma effect_ten_digits (args : list str) (book book' : AddressBook.t) :
  effect args book book' -> Forall word args ->
  phones_ten_digits book -> phones_ten_digits book'.
Proof.
  intros [->|[(k & r & r' & Hf & Hs & ->)|(k & r' & Hf & Hk & _ & Hs & ->)]]
         Hw Hten; [assumption| |].
  - intros k0 r0 p Hin Hp. apply In_setitem in Hin.
    destruct Hin as [[-> ->]|Hin]; [|eauto].
    revert p Hp. apply (rec_step_ten_digits args r); trivial.
    intros p Hp. exact (Hten k r p (find_In _ _ _ Hf) Hp).
  - intros k0 r0 p Hin Hp. apply in_app_or in Hin.
    destruct Hin as [Hin|[[= <- <-]|[]]]; [eauto|].
    revert p Hp. apply (rec_step_ten_digits args (Rec.make (Name.make k) [] None));
      trivial.
    intros p [].
Qed.

Lemma prefix_refl (l : list str) : prefix l l.
Proof. exists []. now rewrite app_nil_r. Qed.

Lemma prefix_trans (l1 l2 l3 : list str) :
  prefix l1 l2 -> prefix l2 l3 -> prefix l1 l3.
Proof.
  intros [m1 ->] [m2 ->]. exists (m1 ++ m2). now rewrite app_assoc.
Qed.

Section LoopFacts.

Variable repr : str -> str.

Lemma main_loop_step (today : Date.t) (user_input command : str)
      (args : list str) (rest : list (Date.t * str)) (book : AddressBook.t) :
  parse_input user_input = Ok (command, args) -> is_exit command = false ->
  main_loop repr ((today, user_input) :: rest) book
  = (fst (dispatch repr today command args book)
       :: fst (main_loop repr rest (snd (dispatch repr today command args book))),
     snd (main_loop repr rest (snd (dispatch repr today command args book)))).
Proof.
  intros Hp He. cbn [main_loop]. rewrite Hp, He.
  destruct (dispatch repr today command args book) as [m b'].
  cbn [fst snd]. now destruct (main_loop repr rest b').
Qed.

Lemma main_loop_invariant (P : AddressBook.t -> Prop) :
  (forall args book book',
      Forall word args -> effect args book book' -> P book -> P book') ->
  forall inputs book,
    P book -> P (ending_book (snd (main_loop repr inputs book))).
Proof.
  intros Hstep inputs.
  induction inputs as [|[today line] rest IH]; intros book HP; [exact HP|].
  destruct (parse_input line) as [[command args]|e] eqn:Hp.
  - destruct (is_exit command) eqn:He.
    + cbn [main_loop]. now rewrite Hp, He.
    + rewrite (main_loop_step today line command args rest book Hp He).
      cbn [snd]. apply IH.
      apply (Hstep args book); [|apply dispatch_effect | exact HP].
      pose proof (parse_input_ok_words _ _ _ Hp) as Hw.
      now inversion Hw.
  - cbn [main_loop]. now rewrite Hp.
Qed.

Lemma main_loop_app (before rest : list (Date.t * str)) (book : AddressBook.t) :
  Forall (fun i => ordinary (snd i)) before ->
  exists printed book1,
    main_loop repr before book = (printed, EndOfInput book1)
    /\ List.length printed = List.length before
    /\ main_loop repr (before ++ rest) book
       = (printed ++ fst (main_loop repr rest book1),
          snd (main_loop repr rest book1)).
Proof.
  revert book; induction before as [|[today line] before IH]; intros book Hall.
  - exists [], book. repeat split. simpl. now destruct (main_loop repr rest book).
  - inversion Hall as [|? ? (command & args & Hp & He) Hall']; subst.
    simpl in Hp.
    destruct (IH (snd (dispatch repr today command args book)) Hall')
      as (printed & book1 & E1 & Hlen & E2).
    exists (fst (dispatch repr today command args book) :: printed), book1.
    rewrite (main_loop_step today line command args before book Hp He).
    rewrite <- app_comm_cons.
    rewrite (main_loop_step today line command args (before ++ rest) book Hp He).
    rewrite E1, E2. cbn [fst snd]. repeat split. simpl. now rewrite Hlen.
Qed.

End LoopFacts.

(** X18: lines with a first word other than close and exit are answered
    one message each and the loop goes on: run on such lines followed by
    others, it prints the messages of the first, as many as there are lines,
    then what it prints on the others from the book the first lines left. *)
Theorem main_loop_ordinary_lines (repr : str -> str)
        (before rest : list (Date.t * str)) (book : AddressBook.t) :
  Forall (fun i => ordinary (snd i)) before ->
  exists printed book1,
    main_loop repr before book = (printed, EndOfInput book1)
    /\ List.length printed = List.length before
    /\ main_loop repr (before ++ rest) book
       = (printed ++ fst (main_loop repr rest book1),
          snd (main_loop repr rest book1)).
Proof. apply main_loop_app. Qed.

Lemma two_lines_ordinary : Forall (fun i => ordinary (snd i)) two_lines.
Proof.
  repeat constructor; simpl.
  - exists (lit "hello"), []. split; reflexivity.
  - exists (lit "add"), [lit "Alice"; lit "1234567890"]. split; reflexivity.
Qed.

Lemma main_loop_ordinary_lines_witness :
  Forall (fun i => ordinary (snd i)) two_lines
  /\ exists printed book1,
      main_loop repr_plain two_lines [] = (printed, EndOfInput book1)
      /\ List.length printed = List.length two_lines
      /\ main_loop repr_plain (two_lines ++ blank_then_exit) []
         = (printed ++ fst (main_loop repr_plain blank_then_exit book1),
            snd (main_loop repr_plain blank_then_exit book1)).
Proof.
  split; [exact two_lines_ordinary|].
  exact (main_loop_ordinary_lines repr_plain two_lines blank_then_exit []
           two_lines_ordinary).
Defined.

(** X19: how a run ends.  It reaches the end of the input only when every
    line was an ordinary one.  It saves the book only on a line whose first
    word is close or exit, after ordinary lines; the book saved is the one
    those lines left, the two farewell messages are printed, and the lines
    after it are not read.  The only exception that escapes the loop is the
    [IndexError] of a line of whitespace, the empty line among them; the
    program then stops without saving the book the lines before left. *)
Theorem main_loop_ending (repr : str -> str) (inputs : list (Date.t * str))
        (book : AddressBook.t) :
  match snd (main_loop repr inputs book) with
  | EndOfInput _ => Forall (fun i => ordinary (snd i)) inputs
  | Saved b =>
      exists before today line rest,
        inputs = before ++ (today, line) :: rest
        /\ Forall (fun i => ordinary (snd i)) before
        /\ (exists command args,
              parse_input line = Ok (command, args) /\ is_exit command = true)
        /\ snd (main_loop repr before book) = EndOfInput b
        /\ fst (main_loop repr inputs book)
           = fst (main_loop repr before book)
               ++ [lit "Data saved successfully."; lit "Good bye!"]
  | Uncaught e b =>
      exists before today line rest,
        inputs = before ++ (today, line) :: rest
        /\ Forall (fun i => ordinary (snd i)) before
        /\ forallb is_space line = true
        /\ e = IndexError (lit "list index out of range")
        /\ snd (main_loop repr before book) = EndOfInput b
        /\ fst (main_loop repr inputs book) = fst (main_loop repr before book)
  end.
Proof.
  revert book; induction inputs as [|[today line] rest IH]; intros book.
  - constructor.
  - destruct (parse_input line) as [[command args]|e] eqn:Hp.
    + destruct (is_exit command) eqn:He.
      * cbn [main_loop]. rewrite Hp, He. cbn [fst snd].
        exists [], today, line, rest. repeat split; eauto.
      * assert (Ho : ordinary line) by (exists command, args; auto).
        rewrite (main_loop_step repr today line command args rest book Hp He).
        cbn [fst snd]. specialize (IH (snd (dispatch repr today command args book))).
        destruct (snd (main_loop repr rest _)) as [b|e b|b] eqn:E.
        -- destruct IH as (before & t & l & r & -> & Hall & Hx & Hb & Hf).
           exists ((today, line) :: before), t, l, r.
           rewrite (main_loop_step repr today line command args before book Hp He).
           cbn [fst snd]. rewrite Hb, Hf. repeat split; auto.
        -- destruct IH as (before & t & l & r & -> & Hall & Hs & -> & Hb & Hf).
           exists ((today, line) :: before), t, l, r.
           rewrite (main_loop_step repr today line command args before book Hp He).
           cbn [fst snd]. rewrite Hb, Hf. repeat split; auto.
        -- constructor; assumption.
    + cbn [main_loop]. rewrite Hp. cbn [fst snd].
      destruct (parse_input_raises _ _ Hp) as [-> Hs].
      exists [], today, line, rest. repeat split; auto.
Qed.

Lemma main_loop_ending_witness :
  exists before today line rest,
    two_lines ++ blank_then_exit = before ++ (today, line) :: rest
    /\ Forall (fun i => ordinary (snd i)) before
    /\ forallb is_space line = true
    /\ IndexError (lit "list index out of range")
       = IndexError (lit "list index out of range")
    /\ snd (main_loop repr_plain before [])
       = EndOfInput [(lit "Alice", alice)]
    /\ fst (main_loop repr_plain (two_lines ++ blank_then_exit) [])
       = fst (main_loop repr_plain before []).
Proof.
  exact (main_loop_ending repr_plain (two_lines ++ blank_then_exit) []).
Defined.

(** X20: what a session keeps.  From a book that is well formed and whose
    phones are ten digits each, whatever the lines typed, the book in memory
    when the run ends is well formed, its phones are ten digits each (no
    line can bring in a number followed by a newline), and the contacts of
    the book at the start are still there, first and in the same order: no
    line removes a contact. *)
Theorem main_loop_keeps_book (repr : str -> str)
        (inputs : list (Date.t * str)) (book : AddressBook.t) :
  book_ok book -> phones_ten_digits book ->
  book_ok (ending_book (snd (main_loop repr inputs book)))
  /\ phones_ten_digits (ending_book (snd (main_loop repr inputs book)))
  /\ prefix (List.map fst book)
       (List.map fst (ending_book (snd (main_loop repr inputs book)))).
Proof.
  intros Hok Hten. split; [|split].
  - apply (main_loop_invariant repr book_ok); [|exact Hok].
    intros args b b' _ He. now apply effect_book_ok with args.
  - apply (main_loop_invariant repr phones_ten_digits); [|exact Hten].
    intros args b b' Hw He. now apply effect_ten_digits with args.
  - apply (main_loop_invariant repr
             (fun b => prefix (List.map fst book) (List.map fst b)));
      [|apply prefix_refl].
    intros args b b' _ He Hp.
    exact (prefix_trans _ _ _ Hp (effect_keys _ _ _ He)).
Qed.

Lemma main_loop_keeps_book_witness :
  book_ok [] /\ phones_ten_digits []
  /\ book_ok (ending_book (snd (main_loop repr_plain two_lines [])))
  /\ phones_ten_digits (ending_book (snd (main_loop repr_plain two_lines [])))
  /\ prefix (List.map fst (@nil (str * Rec.t)))
       (List.map fst (ending_book (snd (main_loop repr_plain two_lines [])))).
Proof.
  assert (Hten : phones_ten_digits []) by (intros k r p []).
  split; [exact book_ok_empty|]. split; [exact Hten|].
  exact (main_loop_keeps_book repr_plain two_lines [] book_ok_empty Hten).
Defined.

(** ** The book as it is shown *)

Lemma newlines_app (a b : str) : newlines (a ++ b) = newlines a + newlines b.
Proof. apply count_occ_app. Qed.

Lemma newlines_join (parts : list str) :
  (forall t, In t parts -> newlines t = 0) ->
  newlines (join newline parts) = List.length parts - 1.
Proof.
  induction parts as [|t parts IH]; intros H; [reflexivity|].
  destruct parts as [|t' parts].
  - simpl. apply H. now left.
  - change (join newline (t :: t' :: parts))
      with (t ++ newline ++ join newline (t' :: parts)).
    rewrite !newlines_app, (H t) by now left.
    rewrite IH by (intros; apply H; now right). simpl. lia.
Qed.

Lemma newlines_join_plain (sep : str) (parts : list str) :
  newlines sep = 0 -> (forall t, In t parts -> newlines t = 0) ->
  newlines (join sep parts) = 0.
Proof.
  intros Hs. induction parts as [|t parts IH]; intros H; [reflexivity|].
  destruct parts as [|t' parts].
  - simpl. apply H. now left.
  - change (join sep (t :: t' :: parts)) with (t ++ sep ++ join sep (t' :: parts)).
    rewrite !newlines_app, (H t), Hs by now left.
    rewrite IH by (intros; apply H; now right). reflexivity.
Qed.

Lemma newlines_word (t : str) : word t -> newlines t = 0.
Proof.
  intros [_ Hw]. unfold newlines. apply count_occ_not_In. intros Hin.
  specialize (Hw _ Hin). discriminate Hw.
Qed.

Lemma newlines_ten_digits (v : str) : ten_digits v -> newlines v = 0.
Proof.
  intros [_ Hd]. unfold newlines. apply count_occ_not_In. intros Hin.
  rewrite forallb_forall in Hd. specialize (Hd _ Hin). discriminate Hd.
Qed.

Lemma uint_str_digits (u : Decimal.uint) (c : N) :
  In c (uint_str u) -> (48 <= c <= 57)%N.
Proof.
  induction u; simpl; try tauto; intros [<-|H]; auto; lia.
Qed.

Lemma newlines_dec_Z (z : Z) : (0 <= z)%Z -> newlines (Date.dec_Z z) = 0.
Proof.
  intros Hz. unfold Date.dec_Z.
  destruct (Z.ltb_spec z 0) as [?|_]; [lia|].
  unfold newlines. apply count_occ_not_In. intros Hin.
  apply uint_str_digits in Hin. lia.
Qed.

Lemma newlines_strftime (d : Date.t) :
  Date.valid d -> newlines (Date.strftime_dmY d) = 0.
Proof.
  intros (Hy & Hm & Hd). unfold Date.MINYEAR in Hy.
  assert (Hp : forall z, (0 <= z)%Z -> newlines (Date.pad2 z) = 0).
  { intros z Hz. unfold Date.pad2.
    destruct (z <? 10)%Z; [rewrite newlines_app|]; now rewrite newlines_dec_Z. }
  unfold Date.strftime_dmY. rewrite !newlines_app.
  rewrite !Hp, newlines_dec_Z by lia. reflexivity.
Qed.

Lemma newlines_record (r : Rec.t) :
  newlines (Name.value (Rec.name r)) = 0 ->
  (forall p, In p (Rec.phones r) -> ten_digits (Phone.value p)) ->
  (forall b, Rec.birthday r = Some b -> Date.valid (Birthday.value b)) ->
  newlines (Rec.to_str r) = 0.
Proof.
  intros Hn Hp Hb. unfold Rec.to_str. rewrite !newlines_app, Hn.
  rewrite newlines_join_plain; [|reflexivity|].
  - destruct (Rec.birthday r) as [b|]; [|reflexivity].
    rewrite newlines_app, newlines_strftime by auto. reflexivity.
  - intros t Hin. apply in_map_iff in Hin. destruct Hin as (p & <- & Hin).
    apply newlines_ten_digits. auto.
Qed.

(** X21: the all command never changes the book.  It answers "Address book
    is empty." exactly when the book is empty.  For a book that is well
    formed, whose keys are words and whose phones are ten digits each, its
    answer has one line for each contact: one newline less than there are
    contacts. *)
Theorem show_all_contacts_lines (repr : str -> str) (book : AddressBook.t) :
  snd (show_all_contacts repr book) = book
  /\ (fst (show_all_contacts repr book) = lit "Address book is empty."
      <-> book = [])
  /\ (book_ok book -> names_are_words book -> phones_ten_digits book ->
      book <> [] ->
      newlines (fst (show_all_contacts repr book)) = List.length book - 1).
Proof.
  unfold show_all_contacts, input_error, Body.show_all_contacts, bind, get, ret.
  cbn [fst snd]. split; [reflexivity|]. split.
  - destruct book as [|[k r] book]; [tauto|].
    split; [|discriminate]. unfold AddressBook.to_str.
    set (l := List.map _ _).
    assert (Hl : exists t, join (lit (String "010" EmptyString)) l
                           = lit "Contact name: " ++ t).
    { unfold l. simpl List.map. destruct (List.map _ book).
      - eexists. unfold join, Rec.to_str. reflexivity.
      - eexists. unfold join at 1, Rec.to_str at 1. rewrite <- !app_assoc.
        reflexivity. }
    destruct Hl as [t ->]. discriminate.
  - intros [_ Hok] Hwords Hten Hne.
    destruct book as [|kr book]; [congruence|].
    unfold AddressBook.to_str.
    change (lit (String "010" EmptyString)) with newline.
    rewrite newlines_join; [now rewrite length_map|].
    intros t Hin. apply in_map_iff in Hin. destruct Hin as ([k r] & <- & Hin).
    destruct (Hok k r Hin) as [Hk (_ & _ & Hb)]. simpl.
    apply newlines_record; [|eauto|exact Hb].
    rewrite Hk. apply newlines_word. eauto.
Qed.

Lemma show_all_contacts_lines_witness :
  newlines (fst (show_all_contacts repr_plain
                   [(lit "Alice", alice); (lit "Bob", bob_leap)])) = 2 - 1
  /\ fst (show_all_contacts repr_plain
            [(lit "Alice", alice); (lit "Bob", bob_leap)])
     = lit "Contact name: Alice, phones: 1234567890" ++ newline
         ++ lit "Contact name: Bob, phones: , birthday: 29.02.2000".
Proof.
  split; [|reflexivity].
  refine (proj2 (proj2 (show_all_contacts_lines repr_plain
                          [(lit "Alice", alice); (lit "Bob", bob_leap)])) _ _ _ _).
  - split.
    + unfold wf. repeat constructor; simpl; intuition discriminate.
    + intros k r [[= <- <-]|[[= <- <-]|[]]]; (split; [reflexivity|]);
        unfold rec_ok; simpl; (split; [discriminate|]); split.
      * intros p [<-|[]]. reflexivity.
      * discriminate.
      * intros p [].
      * intros b [= <-]. unfold Date.valid. vm_compute. intuition discriminate.
  - intros k r [[= <- <-]|[[= <- <-]|[]]]; (split; [discriminate|]);
      intros c Hin; simpl in Hin;
      repeat destruct Hin as [<-|Hin]; try destruct Hin; reflexivity.
  - intros k r p [[= <- <-]|[[= <- <-]|[]]]; [|intros []].
    intros [<-|[]]. split; reflexivity.
  - discriminate.
Defined.

Lemma effect_names_words (args : list str) (book book' : AddressBook.t) :
  effect args book book' -> Forall word args ->
  names_are_words book -> names_are_words book'.
Proof.
  intros [->|[(k & r & r' & Hf & Hs & ->)|(k & r' & Hf & Hk & Ha & Hs & ->)]]
         Hw Hn; [assumption| |].
  - intros k0 r0 Hin. apply In_setitem in Hin.
    destruct Hin as [[-> ->]|Hin]; [|eauto].
    exact (Hn k r (find_In _ _ _ Hf)).
  - intros k0 r0 Hin. apply in_app_or in Hin.
    destruct Hin as [Hin|[[= <- <-]|[]]]; [eauto|].
    rewrite Forall_forall in Hw. auto.
Qed.

(** X22: the names a session gives to contacts are words: from a book whose
    keys are words, whatever the lines typed, the keys of the book in memory
    when the run ends are not empty and hold no whitespace. *)
Theorem main_loop_names_are_words (repr : str -> str)
        (inputs : list (Date.t * str)) (book : AddressBook.t) :
  names_are_words book ->
  names_are_words (ending_book (snd (main_loop repr inputs book))).
Proof.
  intros Hn. apply (main_loop_invariant repr names_are_words); [|exact Hn].
  intros args b b' Hw He. now apply effect_names_words with args.
Qed.

Lemma main_loop_names_are_words_witness :
  names_are_words []
  /\ names_are_words (ending_book (snd (main_loop repr_plain two_lines []))).
Proof.
  assert (H : names_are_words []) by (intros k r []).
  split; [exact H|].
  exact (main_loop_names_are_words repr_plain two_lines [] H).
Defined.
